(** * The privatized-object registry of the Chapel runtime

    A shallow embedding of [runtime/src/chpl-privatization.c]: the two
    instances of the block table, the roster of per-thread status nodes,
    the read and write sides of the coordinator and the four public
    operations, followed by the properties of the registry.

    Conventions of the embedding.
    - C integers are [Z] with the conversions written out: [to_int] is the
      conversion to a 32-bit [int] (two's complement wrap, as GCC and
      Clang define the implementation-defined narrowing), [to_size_t] the
      conversion to a 64-bit [size_t], [to_uint8_t] the one to [uint8_t].
    - Opaque pointers stored in the registry are [Z], [NULL] being [0].
    - Blocks live in a store ([mem]) and are referred to by address, so
      that two instances can share a block.
    - A run of a C function yields a [result]: [Ok] with the value and the
      new state, [Fault] when the run leaves defined behaviour or aborts
      (out-of-bounds or dangling access, signed overflow, refused
      allocation), [Timeout] when the fuel given to a loop runs out.
    - The host runtime is idealised: an allocation succeeds whenever its
      byte count fits [size_t]; the mutex is a flag; what the other threads
      do while the writer yields shows in the status values it reads.
    - The public operations are those of one thread running alone; the
      walk of [init_tls], the writer's wait for the readers and the loop
      of a publish among other writers take the interference of the other
      threads as a parameter. *)

From Stdlib Require Import ZArith Lia Bool.
From stdpp Require Import base list.

Local Open Scope Z_scope.

(** ** Machine integers *)

Definition wrap_signed (w : Z) (x : Z) : Z :=
  (x + 2 ^ (w - 1)) mod 2 ^ w - 2 ^ (w - 1).

Definition INT_MAX : Z := 2147483647.
Definition INT_MIN : Z := -2147483648.

Definition to_int (x : Z) : Z := wrap_signed 32 x.
Definition to_int64_t (x : Z) : Z := wrap_signed 64 x.
Definition to_int_least8_t (x : Z) : Z := wrap_signed 8 x.
Definition to_size_t (x : Z) : Z := x mod 2 ^ 64.
Definition to_uint8_t (x : Z) : Z := x mod 2 ^ 8.

(** ** Outcome of a run *)

Inductive result (A : Type) : Type :=
| Ok (a : A)
| Fault
| Timeout.

Arguments Ok {A} a.
Arguments Fault {A}.
Arguments Timeout {A}.

Definition bind {A B : Type} (m : result A) (k : A -> result B) : result B :=
  match m with
  | Ok a => k a
  | Fault => Fault
  | Timeout => Timeout
  end.

Notation "'let*' x ':=' m 'in' k" := (bind m (fun x => k))
  (at level 10, x pattern, m at level 100, k at level 200).

Definition of_option {A : Type} (o : option A) : result A :=
  match o with
  | Some a => Ok a
  | None => Fault
  end.

(** ** Data of the registry *)

Definition CHPL_PRIVATIZATION_BLOCK_SIZE : Z := 1024.

Definition NULL : Z := 0.

(** A block: an array of privatized objects. *)
Abbreviation block_contents := (list Z).

(** [chpl_priv_block_t] as a value: a reference to a block of the store,
    [None] being the null pointer. *)
Abbreviation chpl_priv_block_t := (option nat).

(** An instance: a variable array of blocks.  [blocks] is [None] when the
    pointer is null or the array has been freed. *)
Record chpl_priv_instance_t : Type := mk_instance {
  blocks : option (list chpl_priv_block_t);
  len : Z
}.

(** A node of the roster; [next] is the tail of the list the node sits in. *)
Record tls_node_t : Type := mk_node {
  in_use : bool;
  status : Z
}.

Record state : Type := mk_state {
  mem : list block_contents;
  chpl_priv_instances : list chpl_priv_instance_t;
  currentInstanceIdx : Z;
  tls_list : list tls_node_t;
  reader_tls : option nat;
  writeLock : bool
}.

Definition set_mem (m : list block_contents) (st : state) : state :=
  mk_state m (chpl_priv_instances st) (currentInstanceIdx st)
           (tls_list st) (reader_tls st) (writeLock st).

Definition set_instances (insts : list chpl_priv_instance_t) (st : state) : state :=
  mk_state (mem st) insts (currentInstanceIdx st)
           (tls_list st) (reader_tls st) (writeLock st).

Definition set_currentInstanceIdx (i : Z) (st : state) : state :=
  mk_state (mem st) (chpl_priv_instances st) i
           (tls_list st) (reader_tls st) (writeLock st).

Definition set_tls_list (l : list tls_node_t) (st : state) : state :=
  mk_state (mem st) (chpl_priv_instances st) (currentInstanceIdx st)
           l (reader_tls st) (writeLock st).

Definition set_reader_tls (r : option nat) (st : state) : state :=
  mk_state (mem st) (chpl_priv_instances st) (currentInstanceIdx st)
           (tls_list st) r (writeLock st).

Definition set_writeLock (b : bool) (st : state) : state :=
  mk_state (mem st) (chpl_priv_instances st) (currentInstanceIdx st)
           (tls_list st) (reader_tls st) b.

(** ** Array accesses

    An index is a C integer; an access outside the array is a [Fault]. *)

Definition load {A : Type} (l : list A) (i : Z) : result A :=
  if (0 <=? i) then of_option (l !! Z.to_nat i) else Fault.

Definition store {A : Type} (l : list A) (i : Z) (x : A) : result (list A) :=
  if (0 <=? i) && (i <? Z.of_nat (length l))
  then Ok (<[Z.to_nat i := x]> l)
  else Fault.

(** ** Allocator shim *)

(** Modelled from the spec: the host allocator [chpl_mem_allocManyZero]
    (and [chpl_calloc]), "zero-initialized bulk allocation", with "no
    failure path beyond process abort".  A request whose byte count does
    not fit [size_t] cannot be served and aborts. *)
Definition chpl_mem_allocManyZero {A : Type} (zero : A) (number size : Z)
  : result (list A) :=
  if number * size <? 2 ^ 64
  then Ok (replicate (Z.to_nat number) zero)
  else Fault.

Definition sizeof_ptr : Z := 8.

(** [chpl_priv_block_create]: a fresh block of zeroes is added to the store
    and its address returned. *)
Definition chpl_priv_block_create (st : state) : result (chpl_priv_block_t * state) :=
  let* b := chpl_mem_allocManyZero NULL CHPL_PRIVATIZATION_BLOCK_SIZE sizeof_ptr in
  Ok (Some (length (mem st)), set_mem (mem st ++ [b]) st).

(** [chpl_memcpy dst src n]: the first [n] bytes of [src], that is [n / 8]
    pointers, overwrite the start of [dst]. *)
Definition chpl_memcpy {A : Type} (dst src : list A) (n : Z) : result (list A) :=
  let k := Z.to_nat (n / sizeof_ptr) in
  if (k <=? length src)%nat && (k <=? length dst)%nat
  then Ok (take k src ++ drop k dst)
  else Fault.

Definition getCurrentInstanceIdx (st : state) : Z :=
  currentInstanceIdx st.

(** ** The roster of reader nodes

    The roster is the list reached from [tls_list], head first.  Nodes are
    only ever added at the head, so a node is identified by the number of
    nodes behind it: that number is what the thread-local key holds. *)

Definition node_index (l : list tls_node_t) (a : nat) : nat :=
  (length l - 1 - a)%nat.

Definition node_at (l : list tls_node_t) (a : nat) : option tls_node_t :=
  if (a <? length l)%nat then l !! node_index l a else None.

Definition set_status (a : nat) (s : Z) (st : state) : result state :=
  match node_at (tls_list st) a with
  | Some n =>
      Ok (set_tls_list
            (<[node_index (tls_list st) a := mk_node (in_use n) s]> (tls_list st)) st)
  | None => Fault
  end.

(** The walk of [init_tls].  [lost a] tells whether, at the node of address
    [a], another thread sets [in_use] between this thread's read of the
    flag and its compare-and-swap, which then fails.  The result is the
    roster after the walk and the node the walk stopped at, if any. *)
Fixpoint init_tls_walk (lost : nat -> bool) (l : list tls_node_t)
  : list tls_node_t * option nat :=
  match l with
  | [] => ([], None)
  | curr :: next =>
      if in_use curr
      then (* continue *)
        let '(next', r) := init_tls_walk lost next in (curr :: next', r)
      else if lost (length next)
      then (* the swap fails: falls out of the [if], binds [curr], returns *)
        (mk_node true (status curr) :: next, Some (length next))
      else (* the swap succeeds: continue *)
        let '(next', r) := init_tls_walk lost next in
        (mk_node true (status curr) :: next', r)
  end.

(** [init_tls].  When the walk ends without a node, one is taken from
    [chpl_calloc] (all fields zero), its status set to [-1] (which the
    [uint8_t] field holds as 255), and it is put at the head of the list. *)
Definition init_tls (lost : nat -> bool) (st : state) : state :=
  match init_tls_walk lost (tls_list st) with
  | (l, Some a) => set_reader_tls (Some a) (set_tls_list l st)
  | (l, None) =>
      let node := mk_node false (to_uint8_t (-1)) in
      set_reader_tls (Some (length l)) (set_tls_list (node :: l) st)
  end.

(** No other thread runs: every compare-and-swap of the walk succeeds. *)
Definition alone : nat -> bool := fun _ => false.

(** ** Read side *)

(** [acquireRead].  With no other thread running, the load that revalidates
    the index reads the value just loaded and the loop body runs once. *)
Definition acquireRead (st : state) : result (Z * state) :=
  let st := match reader_tls st with
            | None => init_tls alone st
            | Some _ => st
            end in
  let* node := of_option (reader_tls st) in
  let instIdx := currentInstanceIdx st in
  let* st := set_status node (to_uint8_t instIdx) st in
  Ok (instIdx, st).

Definition releaseRead (st : state) : result state :=
  let* node := of_option (reader_tls st) in
  set_status node (to_uint8_t (-1)) st.

(** ** Write side *)

(** Modelled from the spec: the host mutex [chpl_sync_lock] /
    [chpl_sync_unlock], "blocking, non-recursive".  Taking a held lock
    never returns when no other thread can release it. *)
Definition acquireWrite (st : state) : result state :=
  if writeLock st then Timeout else Ok (set_writeLock true st).

Definition releaseWrite (st : state) : state :=
  set_writeLock false st.

(** [chpl_privatization_init], on the zero-initialised globals. *)
Definition chpl_privatization_init : state :=
  mk_state [replicate (Z.to_nat CHPL_PRIVATIZATION_BLOCK_SIZE) NULL]
           [mk_instance (Some [Some 0%nat]) 1; mk_instance None 0]
           0 [] None false.

(** ** Slots *)

Definition int_add (a b : Z) : result Z :=
  if (INT_MIN <=? a + b) && (a + b <=? INT_MAX) then Ok (a + b) else Fault.

(** The block that [chpl_priv_instances[rcIdx].blocks[blockIdx]] points to. *)
Definition block_of (st : state) (rcIdx blockIdx : Z) : result nat :=
  let* inst := load (chpl_priv_instances st) rcIdx in
  let* vec := of_option (blocks inst) in
  let* b := load vec blockIdx in
  of_option b.

(** [chpl_priv_instances[rcIdx].blocks[blockIdx][idx]] as an rvalue. *)
Definition read_slot (st : state) (rcIdx blockIdx idx : Z) : result Z :=
  let* b := block_of st rcIdx blockIdx in
  let* blk := of_option (mem st !! b) in
  load blk idx.

(** [chpl_priv_instances[rcIdx].blocks[blockIdx][idx] = v]. *)
Definition write_slot (st : state) (rcIdx blockIdx idx v : Z) : result state :=
  let* b := block_of st rcIdx blockIdx in
  let* blk := of_option (mem st !! b) in
  let* blk := store blk idx v in
  Ok (set_mem (<[b := blk]> (mem st)) st).

(** ** The wait for readers

    [reads k a] is the value the writer obtains at its [k]-th read of a
    status field, when that read is of the node of address [a]: the other
    threads run between two reads and may have changed the field. *)

Definition status_reads : Type := nat -> nat -> Z.

(** [while (curr->status == instIdx) chpl_task_yield();] at the node of
    address [a], starting with the [k]-th read; yields the number of reads
    made so far. *)
Fixpoint spin (reads : status_reads) (instIdx : Z) (fuel : nat) (k a : nat)
  : result nat :=
  if reads k a =? instIdx
  then match fuel with
       | O => Timeout
       | S fuel => spin reads instIdx fuel (S k) a
       end
  else Ok (S k).

(** The [for] loop over the roster. *)
Fixpoint wait_for_readers (reads : status_reads) (instIdx : Z) (fuel : nat)
  (k : nat) (l : list tls_node_t) : result nat :=
  match l with
  | [] => Ok k
  | _ :: next =>
      let* k := spin reads instIdx fuel k (length next) in
      wait_for_readers reads instIdx fuel k next
  end.

(** The reads of a writer that runs alone: the fields keep the values they
    have in the state. *)
Definition frozen (l : list tls_node_t) : status_reads :=
  fun _ a => from_option status 0 (node_at l a).

(** The scan of the [for] loop, told by the reads alone.  The loop comes
    to the node of address [length next] with its [k]-th read; the reads
    of that node find the old index up to the read [j], which finds
    another status; the loop then goes on to the next node with the read
    after [j], and never comes back to the node it has passed.  [k'] is
    the number of reads made when the last node has been passed. *)
Fixpoint scan_ends (reads : status_reads) (instIdx : Z) (k : nat)
  (l : list tls_node_t) (k' : nat) : Prop :=
  match l with
  | [] => k' = k
  | _ :: next =>
      exists j, (k <= j)%nat /\
        (forall i, (k <= i < j)%nat -> reads i (length next) = instIdx) /\
        reads j (length next) <> instIdx /\
        scan_ends reads instIdx (S j) next k'
  end.

(** ** Growing *)

(** [for (int i = ...; i <= blockIdx; i++) newBlocks[i] = chpl_priv_block_create();]
    with [n] iterations left. *)
Fixpoint fill_blocks (n : nat) (i : Z) (newBlocks : list chpl_priv_block_t)
  (st : state) : result (list chpl_priv_block_t * state) :=
  match n with
  | O => Ok (newBlocks, st)
  | S n =>
      let* (b, st) := chpl_priv_block_create st in
      let* newBlocks := store newBlocks i b in
      fill_blocks n (i + 1) newBlocks st
  end.

(** The write critical section of [chpl_newPrivatizedClass], from
    [acquireWrite] to [releaseWrite].  The boolean tells whether the
    section grew the registry ([true]) or found it already large enough
    ([false], the [continue] of the source). *)
Definition write_section (reads : status_reads) (fuel : nat) (blockIdx : Z)
  (st : state) : result (bool * state) :=
  let* st := acquireWrite st in
  let instIdx := getCurrentInstanceIdx st in
  let* inst := load (chpl_priv_instances st) instIdx in
  let* n := int_add blockIdx 1 in
  let deltaBlocks := to_int (to_size_t (to_size_t n - len inst)) in
  if deltaBlocks <=? 0
  then Ok (false, releaseWrite st)
  else
    let newInstIdx := if getCurrentInstanceIdx st =? 0 then 1 else 0 in
    let* newBlocks := chpl_mem_allocManyZero None (to_size_t n) sizeof_ptr in
    let* old := of_option (blocks inst) in
    let* newBlocks := chpl_memcpy newBlocks old (to_size_t (len inst * sizeof_ptr)) in
    let i := to_int (len inst) in
    let* (newBlocks, st) := fill_blocks (Z.to_nat (blockIdx - i + 1)) i newBlocks st in
    let* insts := store (chpl_priv_instances st) newInstIdx
                        (mk_instance (Some newBlocks) (to_size_t n)) in
    let st := set_instances insts st in
    let st := set_currentInstanceIdx (to_int_least8_t newInstIdx) st in
    let* _ := wait_for_readers reads instIdx fuel 0 (tls_list st) in
    let* inst := load (chpl_priv_instances st) instIdx in
    let* insts := store (chpl_priv_instances st) instIdx
                        (mk_instance None (len inst)) in
    Ok (true, releaseWrite (set_instances insts st)).

(** ** Public operations *)

(** The [while (true)] loop of [chpl_newPrivatizedClass]; [grows] counts
    the passes through the growing branch. *)
Fixpoint publish_loop (fuel : nat) (v pid blockIdx : Z) (grows : nat)
  (st : state) : result (nat * state) :=
  match fuel with
  | O => Timeout
  | S fuel =>
      let* (rcIdx, st) := acquireRead st in
      let* inst := load (chpl_priv_instances st) rcIdx in
      if to_size_t blockIdx >=? len inst
      then
        let* st := releaseRead st in
        let* (grew, st) := write_section (frozen (tls_list st)) fuel blockIdx st in
        publish_loop fuel v pid blockIdx (if grew : bool then S grows else grows) st
      else
        let idx := to_int (Z.rem pid CHPL_PRIVATIZATION_BLOCK_SIZE) in
        let* st := write_slot st rcIdx blockIdx idx v in
        let* st := releaseRead st in
        Ok (grows, st)
  end.

Definition chpl_newPrivatizedClass (fuel : nat) (v pid : Z) (st : state)
  : result (nat * state) :=
  let blockIdx := to_int (Z.quot pid CHPL_PRIVATIZATION_BLOCK_SIZE) in
  publish_loop fuel v pid blockIdx 0 st.

(** The same loop among other writers.  A pass that finds the block index
    outside the table leaves its read section and blocks in
    [acquireWrite] until the lock is free; [others] is what the threads
    that hold the lock before it make of the state in the meantime.  The
    rest is the loop above, which is this one when [others] changes
    nothing. *)
Fixpoint publish_loop_among (others : state -> state) (fuel : nat)
  (v pid blockIdx : Z) (grows : nat) (st : state) : result (nat * state) :=
  match fuel with
  | O => Timeout
  | S fuel =>
      let* (rcIdx, st) := acquireRead st in
      let* inst := load (chpl_priv_instances st) rcIdx in
      if to_size_t blockIdx >=? len inst
      then
        let* st := releaseRead st in
        let st := others st in
        let* (grew, st) := write_section (frozen (tls_list st)) fuel blockIdx st in
        publish_loop_among others fuel v pid blockIdx
                           (if grew : bool then S grows else grows) st
      else
        let idx := to_int (Z.rem pid CHPL_PRIVATIZATION_BLOCK_SIZE) in
        let* st := write_slot st rcIdx blockIdx idx v in
        let* st := releaseRead st in
        Ok (grows, st)
  end.

Definition chpl_getPrivatizedClass (i : Z) (st : state) : result (Z * state) :=
  let* (rcIdx, st) := acquireRead st in
  let blockIdx := to_int (Z.quot i CHPL_PRIVATIZATION_BLOCK_SIZE) in
  let idx := to_int (Z.rem i CHPL_PRIVATIZATION_BLOCK_SIZE) in
  let* ret := read_slot st rcIdx blockIdx idx in
  let* st := releaseRead st in
  Ok (ret, st).

Definition chpl_clearPrivatizedClass (i : Z) (st : state) : result state :=
  let* (rcIdx, st) := acquireRead st in
  let blockIdx := to_int (Z.quot i CHPL_PRIVATIZATION_BLOCK_SIZE) in
  let idx := to_int (Z.rem i CHPL_PRIVATIZATION_BLOCK_SIZE) in
  let* st := write_slot st rcIdx blockIdx idx NULL in
  releaseRead st.

Definition chpl_numPrivatizedClasses (st : state) : result (Z * state) :=
  let* (rcIdx, st) := acquireRead st in
  let* inst := load (chpl_priv_instances st) rcIdx in
  let ret := to_int64_t (to_size_t (len inst * CHPL_PRIVATIZATION_BLOCK_SIZE)) in
  let* st := releaseRead st in
  Ok (ret, st).

(** ** Single-threaded executions *)

Inductive op : Type :=
| Publish (v pid : Z)
| Get (pid : Z)
| Clear (pid : Z)
| Capacity.

Definition exec (fuel : nat) (o : op) (st : state) : result state :=
  match o with
  | Publish v pid => let* (_, st) := chpl_newPrivatizedClass fuel v pid st in Ok st
  | Get pid => let* (_, st) := chpl_getPrivatizedClass pid st in Ok st
  | Clear pid => chpl_clearPrivatizedClass pid st
  | Capacity => let* (_, st) := chpl_numPrivatizedClasses st in Ok st
  end.

Fixpoint run (fuel : nat) (ops : list op) (st : state) : result state :=
  match ops with
  | [] => Ok st
  | o :: ops => let* st := exec fuel o st in run fuel ops st
  end.

(** The value an operation returns. *)
Definition returned {A : Type} (r : result (A * state)) : result A :=
  let* (a, _) := r in Ok a.

(** A state is reachable when a single thread gets to it from
    [chpl_privatization_init] by a sequence of operations that all
    return. *)
Definition reachable (st : state) : Prop :=
  exists fuel ops, run fuel ops chpl_privatization_init = Ok st.

(** The current instance. *)
Definition cur_inst (st : state) : chpl_priv_instance_t :=
  default (mk_instance None 0)
          (chpl_priv_instances st !! Z.to_nat (currentInstanceIdx st)).

(** ** Invariants and views of the state *)

(** A node whose thread is not reading: [status] holds the -1 that
    [releaseRead] and [init_tls] store, 255 in the [uint8_t] field. *)
Definition idle_node (n : tls_node_t) : Prop := status n = 255.

(** Between two operations of the thread, every node is idle and the key,
    when set, names a node of the roster. *)
Definition tls_idle (st : state) : Prop :=
  Forall idle_node (tls_list st) /\
  forall a, reader_tls st = Some a -> (a < length (tls_list st))%nat.

(** Inside a read section: the key names a node, every other node is
    idle. *)
Definition tls_reading (st : state) : Prop :=
  exists a, reader_tls st = Some a /\ (a < length (tls_list st))%nat /\
    forall i n, tls_list st !! i = Some n ->
                i <> node_index (tls_list st) a -> idle_node n.

(** The fields other than those of the roster. *)
Definition same_data (st st' : state) : Prop :=
  mem st' = mem st /\
  chpl_priv_instances st' = chpl_priv_instances st /\
  currentInstanceIdx st' = currentInstanceIdx st /\
  writeLock st' = writeLock st.

(** A node after a successful compare-and-swap of its [in_use] flag. *)
Definition mark (n : tls_node_t) : tls_node_t := mk_node true (status n).

(** A block as [chpl_priv_block_create] returns it. *)
Definition zero_block : block_contents :=
  replicate (Z.to_nat CHPL_PRIVATIZATION_BLOCK_SIZE) NULL.

Arguments zero_block : simpl never.

(** The registry invariant (I1, I5 of the design): the index names one of
    the two instances; the current instance holds [len] references to
    distinct live blocks of 1024 slots, [vec] being their addresses. *)
Record data_ok (st : state) (vec : list nat) : Prop := mk_data_ok {
  ok_idx : currentInstanceIdx st = 0 \/ currentInstanceIdx st = 1;
  ok_two : length (chpl_priv_instances st) = 2%nat;
  ok_cur : cur_inst st = mk_instance (Some (Some <$> vec)) (Z.of_nat (length vec));
  ok_len : 1 <= Z.of_nat (length vec) <= INT_MAX;
  ok_nodup : NoDup vec;
  ok_live : Forall (fun b => (b < length (mem st))%nat) vec;
  ok_mem : Forall (fun blk => length blk = 1024%nat) (mem st)
}.

(** The state between two operations of a thread that runs alone. *)
Definition wf (st : state) (vec : list nat) : Prop :=
  data_ok st vec /\ tls_idle st /\ writeLock st = false.

(** The slot [idx] of the [b]-th block of the table [vec]. *)
Definition slot_of (vec : list nat) (m : list block_contents) (b idx : Z)
  : result Z :=
  let* a := load vec b in
  let* blk := of_option (m !! a) in
  load blk idx.

(** The state a writer leaves behind when it grows the table [vec] of [st]
    to hold block [b]. *)
Definition grown (st : state) (vec : list nat) (b : Z) : state :=
  let k := (Z.to_nat (b + 1) - length vec)%nat in
  let instIdx := currentInstanceIdx st in
  let newInstIdx := if instIdx =? 0 then 1 else 0 in
  mk_state
    (mem st ++ replicate k zero_block)
    (<[Z.to_nat instIdx := mk_instance None (Z.of_nat (length vec))]>
       (<[Z.to_nat newInstIdx :=
            mk_instance (Some (Some <$> (vec ++ seq (length (mem st)) k))) (b + 1)]>
          (chpl_priv_instances st)))
    newInstIdx (tls_list st) (reader_tls st) false.

(** What a slot of the grown table holds: the old table on its blocks,
    zeroes on the new ones. *)
Definition grown_slot (vec : list nat) (m : list block_contents) (n : Z)
  (b idx : Z) : result Z :=
  if b <? Z.of_nat (length vec) then slot_of vec m b idx
  else if (b <? n) && (0 <=? idx) && (idx <? 1024) then Ok NULL
  else Fault.

(** [int blockIdx = pid / CHPL_PRIVATIZATION_BLOCK_SIZE] and
    [int idx = pid % CHPL_PRIVATIZATION_BLOCK_SIZE], as the three
    operations compute them. *)
Definition blockIdx_of (pid : Z) : Z :=
  to_int (Z.quot pid CHPL_PRIVATIZATION_BLOCK_SIZE).

Definition idx_of (pid : Z) : Z :=
  to_int (Z.rem pid CHPL_PRIVATIZATION_BLOCK_SIZE).

(** What an operation stores into the slot [idx] of block [b], if it
    stores there at all. *)
Definition written (o : op) (b idx : Z) : option Z :=
  match o with
  | Publish v pid =>
      if decide (b = blockIdx_of pid /\ idx = idx_of pid) then Some v else None
  | Clear pid =>
      if decide (b = blockIdx_of pid /\ idx = idx_of pid) then Some NULL else None
  | Get _ | Capacity => None
  end.

(** No publish of [ops] stores into the slot [idx] of block [b]. *)
Definition never_stored (ops : list op) (b idx : Z) : Prop :=
  forall v pid, Publish v pid ∈ ops -> ~ (b = blockIdx_of pid /\ idx = idx_of pid).

(** The pids whose block index, plus one, is an [int]. *)
Definition PID_LIMIT : Z := INT_MAX * CHPL_PRIVATIZATION_BLOCK_SIZE.

(** The state after publishing at pid 5000 and clearing pid 3. *)
Definition sparse_state : state :=
  Eval vm_compute in
    match run 2 [Publish 7 5000; Clear 3] chpl_privatization_init with
    | Ok st => st
    | _ => chpl_privatization_init
    end.

(** A state in which the thread has read once: one idle node in the
    roster. *)
Definition one_reader : state :=
  Eval vm_compute in
    match run 1 [Get 0] chpl_privatization_init with
    | Ok st => st
    | _ => chpl_privatization_init
    end.

(** The initial registry with the nodes of two other threads in the
    roster, the node of address 1 at the head. *)
Definition two_threads : state :=
  set_tls_list [mk_node true 255; mk_node true 255] chpl_privatization_init.

(** A reader that leaves: the node of address 0 shows the index 0 at the
    first three reads of the writer and is idle from then on; the other
    nodes are idle. *)
Definition reader_leaves : status_reads :=
  fun k a => if (a =? 0)%nat && (k <? 3)%nat then 0 else 255.

(** A reader that comes in behind the writer: the node of address 0 is as
    above; the node of address 1 is idle at the first read of the writer
    and shows the index 0 from the second read on, as the node of a thread
    does that loaded the index before the writer published the new one
    and stores it after the writer has passed its node. *)
Definition reader_comes_in : status_reads :=
  fun k a =>
    if (a =? 1)%nat then (if (k =? 0)%nat then 255 else 0)
    else if (k <? 3)%nat then 0 else 255.

(** ** A reference for executions *)

(** What an operation stores at pid [p], if it stores there at all. *)
Definition store_of (o : op) (p : Z) : option Z :=
  match o with
  | Publish v q => if decide (q = p) then Some v else None
  | Clear q => if decide (q = p) then Some NULL else None
  | Get _ | Capacity => None
  end.

(** The value that the operations [ops], run in order on a registry in
    which pid [p] holds [x], leave at [p]: the one stored last. *)
Definition expected (ops : list op) (p : Z) (x : Z) : Z :=
  fold_left (fun y o => default y (store_of o p)) ops x.

(** The number of blocks that [ops], run in order on a registry of [n]
    blocks, call for: each publish needs its block index plus one. *)
Definition blocks_needed (ops : list op) (n : Z) : Z :=
  fold_left (fun k o => match o with
                        | Publish _ q => Z.max k (blockIdx_of q + 1)
                        | _ => k
                        end) ops n.

(** The pids whose block index is an [int], and the operations on them. *)
Definition pid_in_range (q : Z) : Prop :=
  0 <= q /\ q / CHPL_PRIVATIZATION_BLOCK_SIZE <= INT_MAX.

Definition op_in_range (o : op) : Prop :=
  match o with
  | Publish _ q | Get q | Clear q => pid_in_range q
  | Capacity => True
  end.

(** The thread keeps its roster node from [st] to [st']: a key that was
    set still names the same node of a roster of the same length; a key
    that was unset names a node of a roster one node longer. *)
Definition keeps_node (st st' : state) : Prop :=
  exists a, reader_tls st' = Some a /\ (a < length (tls_list st'))%nat /\
    match reader_tls st with
    | Some a' => a = a' /\ length (tls_list st') = length (tls_list st)
    | None => length (tls_list st') = S (length (tls_list st))
    end.

(** * Properties *)

(** ** The model at work

    The sparse, non-monotonic fill of the design's scenarios: the last
    value published at a pid is read back, untouched pids read null, and
    the capacity has followed the largest pid. *)

Example sparse_fill :
  (let* st := run 2 [Publish 11 5000; Publish 12 1; Publish 13 5000]
                  chpl_privatization_init in
   let* (a, st) := chpl_getPrivatizedClass 5000 st in
   let* (b, st) := chpl_getPrivatizedClass 1 st in
   let* (c, st) := chpl_getPrivatizedClass 0 st in
   let* (d, st) := chpl_getPrivatizedClass 4999 st in
   let* (e, st) := chpl_numPrivatizedClasses st in
   Ok (a, b, c, d, e)) = Ok (13, 12, NULL, NULL, 5120).
Proof. vm_compute. reflexivity. Qed.

Example publish_clear :
  (let* st := run 1 [Publish 11 42] chpl_privatization_init in
   let* (a, st) := chpl_getPrivatizedClass 42 st in
   let* st := chpl_clearPrivatizedClass 42 st in
   let* (b, st) := chpl_getPrivatizedClass 42 st in
   Ok (a, b)) = Ok (11, NULL).
Proof. vm_compute. reflexivity. Qed.

(** The instances after one grow: the old vector is gone, its block is
    shared with the new one. *)
Example instances_after_grow :
  (let* st := run 2 [Publish 11 1024] chpl_privatization_init in
   Ok (chpl_priv_instances st, currentInstanceIdx st, length (mem st)))
  = Ok ([mk_instance None 1; mk_instance (Some [Some 0%nat; Some 1%nat]) 2],
        1, 2%nat).
Proof. vm_compute. reflexivity. Qed.

(** ** Machine integers *)

Lemma to_int_id x : INT_MIN <= x <= INT_MAX -> to_int x = x.
Proof.
  unfold to_int, wrap_signed, INT_MIN, INT_MAX. intros H.
  change (2 ^ (32 - 1)) with 2147483648. change (2 ^ 32) with 4294967296.
  rewrite Z.mod_small; lia.
Qed.

Lemma to_int_range x : INT_MIN <= to_int x <= INT_MAX.
Proof.
  unfold to_int, wrap_signed, INT_MIN, INT_MAX.
  change (2 ^ (32 - 1)) with 2147483648. change (2 ^ 32) with 4294967296.
  pose proof (Z.mod_pos_bound (x + 2147483648) 4294967296). lia.
Qed.

Lemma to_int_shift x k : to_int (x + k * 4294967296) = to_int x.
Proof.
  unfold to_int, wrap_signed. change (2 ^ 32) with 4294967296.
  replace (x + k * 4294967296 + 2 ^ (32 - 1))
    with (x + 2 ^ (32 - 1) + k * 4294967296) by lia.
  by rewrite Z.mod_add.
Qed.

Lemma to_size_t_id x : 0 <= x < 2 ^ 64 -> to_size_t x = x.
Proof. intros H. unfold to_size_t. by apply Z.mod_small. Qed.

Lemma to_size_t_neg x : - 2 ^ 64 <= x < 0 -> to_size_t x = x + 2 ^ 64.
Proof.
  intros H. unfold to_size_t.
  rewrite <- (Z.mod_add x 1 (2 ^ 64)) by lia.
  rewrite Z.mod_small; lia.
Qed.

Lemma to_int64_t_id x : - 2 ^ 63 <= x < 2 ^ 63 -> to_int64_t x = x.
Proof.
  unfold to_int64_t, wrap_signed. intros H.
  change (2 ^ (64 - 1)) with (2 ^ 63). change (2 ^ 64) with (2 * 2 ^ 63).
  rewrite Z.mod_small; lia.
Qed.

Lemma bind_Ok {A B} (m : result A) (k : A -> result B) b :
  bind m k = Ok b -> exists a, m = Ok a /\ k a = Ok b.
Proof. destruct m; simpl; intros; eauto; discriminate. Qed.

(** ** The roster *)

Lemma same_data_refl st : same_data st st.
Proof. by repeat split. Qed.

Lemma same_data_trans st1 st2 st3 :
  same_data st1 st2 -> same_data st2 st3 -> same_data st1 st3.
Proof. unfold same_data. intros (?&?&?&?) (?&?&?&?). repeat split; congruence. Qed.

Lemma init_tls_walk_alone l :
  init_tls_walk alone l = (mark <$> l, None).
Proof.
  induction l as [|n l IH]; [done|].
  simpl. rewrite IH. unfold alone. destruct n as [[] s]; done.
Qed.

Lemma init_tls_walk_stop lost l l' a :
  init_tls_walk lost l = (l', Some a) ->
  lost a = true /\ (a < length l)%nat /\
  exists n, node_at l a = Some n /\ in_use n = false.
Proof.
  revert l'. induction l as [|n l IH]; intros l'; simpl; [discriminate|].
  assert (Hat : forall b m, (b < length l)%nat -> node_at l b = Some m ->
                            node_at (n :: l) b = Some m).
  { intros b m Hb. unfold node_at, node_index. simpl.
    destruct (Nat.ltb_spec b (length l)); [|lia].
    destruct (Nat.ltb_spec b (S (length l))); [|lia].
    replace (length l - 0 - b)%nat with (S (length l - 1 - b)) by lia. done. }
  destruct (in_use n) eqn:Hn.
  - destruct (init_tls_walk lost l) as [l1 r] eqn:Hw. intros [= <- ->].
    destruct (IH _ eq_refl) as (H1 & H2 & m & H3 & H4).
    split; [done|]. split; [lia|]. exists m. split; [by apply Hat|done].
  - destruct (lost (length l)) eqn:Hl.
    + intros [= <- <-]. split; [done|]. split; [lia|]. exists n. split; [|done].
      unfold node_at, node_index. simpl.
      destruct (Nat.ltb_spec (length l) (S (length l))); [|lia].
      by replace (length l - 0 - length l)%nat with 0%nat by lia.
    + destruct (init_tls_walk lost l) as [l1 r] eqn:Hw. intros [= <- ->].
      destruct (IH _ eq_refl) as (H1 & H2 & m & H3 & H4).
      split; [done|]. split; [lia|]. exists m. split; [by apply Hat|done].
Qed.

Lemma idle_mark l : Forall idle_node l -> Forall idle_node (mark <$> l).
Proof. intros H. apply Forall_fmap. eapply Forall_impl; [exact H|]. by intros []. Qed.

Lemma acquireRead_idle st :
  tls_idle st ->
  exists st', acquireRead st = Ok (currentInstanceIdx st, st') /\
              same_data st st' /\ tls_reading st'.
Proof.
  destruct st as [m insts c l r w]. intros [Hl Hr]. simpl in *.
  unfold acquireRead. simpl. destruct r as [a|].
  - simpl. specialize (Hr a eq_refl).
    unfold set_status, node_at. simpl.
    destruct (Nat.ltb_spec a (length l)); [|lia].
    destruct (lookup_lt_is_Some_2 l (node_index l a)) as [n Hn].
    { unfold node_index. lia. }
    rewrite Hn. simpl. eexists. split; [done|]. split; [by repeat split|].
    exists a. simpl. rewrite length_insert. split; [done|]. split; [done|].
    intros i n' Hi Hne. unfold node_index in *. rewrite length_insert in Hne.
    rewrite list_lookup_insert_ne in Hi by done.
    by eapply Forall_lookup_1 in Hi.
  - unfold init_tls. simpl. rewrite init_tls_walk_alone. simpl.
    unfold set_status, node_at, node_index. simpl. rewrite length_fmap.
    destruct (Nat.ltb_spec (length l) (S (length l))); [|lia].
    replace (length l - 0 - length l)%nat with 0%nat by lia. simpl.
    eexists. split; [done|]. split; [by repeat split|].
    exists (length l). simpl. rewrite length_fmap. split; [done|]. split; [lia|].
    intros i n' Hi Hne. unfold node_index in Hne. simpl in Hne.
    rewrite length_fmap in Hne.
    destruct i as [|i]; [lia|]. simpl in Hi.
    eapply Forall_lookup_1 in Hi; [done|]. by apply idle_mark.
Qed.

Lemma releaseRead_reading st :
  tls_reading st ->
  exists st', releaseRead st = Ok st' /\ same_data st st' /\ tls_idle st'.
Proof.
  destruct st as [m insts c l r w]. intros (a & Hr & Ha & Hl). simpl in *.
  subst r. unfold releaseRead, set_status, node_at. simpl.
  destruct (Nat.ltb_spec a (length l)); [|lia].
  destruct (lookup_lt_is_Some_2 l (node_index l a)) as [n Hn].
  { unfold node_index. lia. }
  rewrite Hn. eexists. split; [done|]. split; [by repeat split|].
  split; simpl.
  - apply Forall_lookup_2. intros i n' Hi.
    destruct (decide (i = node_index l a)) as [->|Hne].
    + rewrite list_lookup_insert_eq in Hi by (by eapply lookup_lt_Some).
      by injection Hi as <-.
    + rewrite list_lookup_insert_ne in Hi by done. eauto.
  - intros a' [= <-]. by rewrite length_insert.
Qed.

(** Storing into a slot does not touch the roster. *)
Lemma tls_reading_data st st' :
  tls_list st' = tls_list st -> reader_tls st' = reader_tls st ->
  tls_reading st -> tls_reading st'.
Proof. unfold tls_reading. intros -> ->. done. Qed.

(** ** The wait for readers *)

Lemma spin_Ok reads inst fuel k a k' :
  spin reads inst fuel k a = Ok k' ->
  (k < k')%nat /\ reads (k' - 1)%nat a <> inst.
Proof.
  revert k. induction fuel as [|fuel IH]; intros k; simpl.
  - destruct (Z.eqb_spec (reads k a) inst); [discriminate|].
    intros [= <-]. split; [lia|]. by replace (S k - 1)%nat with k by lia.
  - destruct (Z.eqb_spec (reads k a) inst).
    + intros H. apply IH in H. split; [lia|]. apply H.
    + intros [= <-]. split; [lia|]. by replace (S k - 1)%nat with k by lia.
Qed.

Lemma spin_pass reads inst fuel k a :
  reads k a <> inst -> spin reads inst fuel k a = Ok (S k).
Proof.
  intros H. destruct fuel; simpl; by destruct (Z.eqb_spec (reads k a) inst).
Qed.

Lemma wait_for_readers_Ok reads inst fuel l : forall k k',
  wait_for_readers reads inst fuel k l = Ok k' ->
  (k <= k')%nat /\
  forall a, (a < length l)%nat ->
            exists j, (k <= j < k')%nat /\ reads j a <> inst.
Proof.
  induction l as [|n l IH]; intros k k'; simpl.
  - intros [= <-]. split; [lia|]. intros a Ha. lia.
  - intros H. apply bind_Ok in H as (k1 & Hs & Hw).
    apply spin_Ok in Hs as [Hk Hr]. apply IH in Hw as [Hk' Hall].
    split; [lia|]. intros a Ha.
    destruct (decide (a = length l)) as [->|Hne].
    + exists (k1 - 1)%nat. split; [lia|done].
    + destruct (Hall a) as (j & Hj & Hrj); [lia|]. exists j. split; [lia|done].
Qed.

Lemma wait_for_readers_pass reads inst fuel l : forall k,
  (forall j a, (a < length l)%nat -> reads j a <> inst) ->
  wait_for_readers reads inst fuel k l = Ok (k + length l)%nat.
Proof.
  induction l as [|n l IH]; intros k H; simpl.
  - f_equal. lia.
  - rewrite spin_pass by (apply H; simpl; lia). simpl.
    rewrite IH by (intros; apply H; simpl; lia). f_equal. lia.
Qed.

Lemma frozen_lookup l a n :
  node_at l a = Some n -> forall j, frozen l j a = status n.
Proof. intros H j. unfold frozen. by rewrite H. Qed.

Lemma node_at_Some l a :
  (a < length l)%nat -> exists n, node_at l a = Some n /\ n ∈ l.
Proof.
  intros Ha. unfold node_at. destruct (Nat.ltb_spec a (length l)); [|lia].
  destruct (lookup_lt_is_Some_2 l (node_index l a)) as [n Hn].
  { unfold node_index. lia. }
  exists n. split; [done|]. by eapply list_elem_of_lookup_2.
Qed.

Lemma node_at_elem l n :
  n ∈ l -> exists a, (a < length l)%nat /\ node_at l a = Some n.
Proof.
  intros Hn. apply list_elem_of_lookup_1 in Hn as [i Hi].
  pose proof (lookup_lt_Some _ _ _ Hi) as Hlt.
  exists (length l - 1 - i)%nat. split; [lia|].
  unfold node_at, node_index. destruct (Nat.ltb_spec (length l - 1 - i) (length l)); [|lia].
  by replace (length l - 1 - (length l - 1 - i))%nat with i by lia.
Qed.

Lemma wait_frozen_iff l inst :
  (exists fuel k, wait_for_readers (frozen l) inst fuel 0 l = Ok k) <->
  Forall (fun n => status n <> inst) l.
Proof.
  split.
  - intros (fuel & k & H). apply wait_for_readers_Ok in H as [_ Hall].
    apply Forall_forall. intros n Hn.
    apply node_at_elem in Hn as (a & Ha & Hat).
    destruct (Hall a Ha) as (j & _ & Hj). by rewrite (frozen_lookup _ _ _ Hat) in Hj.
  - intros H. exists 0%nat, (0 + length l)%nat. apply wait_for_readers_pass.
    intros j a Ha. destruct (node_at_Some l a Ha) as (n & Hat & Hn).
    rewrite (frozen_lookup _ _ _ Hat). by eapply Forall_forall in H.
Qed.

Lemma wait_frozen_idle l inst fuel :
  Forall idle_node l -> inst <> 255 ->
  wait_for_readers (frozen l) inst fuel 0 l = Ok (0 + length l)%nat.
Proof.
  intros H Hi. apply wait_for_readers_pass. intros j a Ha.
  destruct (node_at_Some l a Ha) as (n & Hat & Hn).
  rewrite (frozen_lookup _ _ _ Hat).
  eapply Forall_forall in H; [|exact Hn]. unfold idle_node in H. congruence.
Qed.

(** The loop at one node, exactly: it ends at the first read that finds a
    status other than the old index, having yielded once for each read
    before. *)
Lemma spin_exact reads inst fuel : forall k a k',
  spin reads inst fuel k a = Ok k' <->
  exists j, k' = S j /\ (k <= j <= k + fuel)%nat /\
    (forall i, (k <= i < j)%nat -> reads i a = inst) /\
    reads j a <> inst.
Proof.
  induction fuel as [|fuel IH]; intros k a k'; cbn [spin];
    destruct (Z.eqb_spec (reads k a) inst) as [E|E].
  - split; [done|]. intros (j & _ & Hj & _ & Hne).
    assert (j = k) as -> by lia. done.
  - split.
    + intros [= <-]. exists k. split; [done|]. split; [lia|]. split; [|done].
      intros i Hi. lia.
    + intros (j & -> & Hj & _). assert (j = k) as -> by lia. done.
  - rewrite IH. split.
    + intros (j & -> & Hj & Hbefore & Hne). exists j.
      split; [done|]. split; [lia|]. split; [|done].
      intros i Hi. destruct (decide (i = k)) as [->|]; [done|].
      apply Hbefore. lia.
    + intros (j & -> & Hj & Hbefore & Hne). exists j.
      assert (j <> k) by (intros ->; done).
      split; [done|]. split; [lia|]. split; [|done].
      intros i Hi. apply Hbefore. lia.
  - split.
    + intros [= <-]. exists k. split; [done|]. split; [lia|]. split; [|done].
      intros i Hi. lia.
    + intros (j & -> & Hj & Hbefore & _).
      destruct (decide (j = k)) as [->|]; [done|].
      exfalso. apply E, Hbefore. lia.
Qed.

Lemma scan_ends_le reads inst l : forall k k',
  scan_ends reads inst k l k' -> (k + length l <= k')%nat.
Proof.
  induction l as [|n l IH]; intros k k'; cbn [scan_ends length].
  - intros ->. lia.
  - intros (j & Hj & _ & _ & H). apply IH in H. lia.
Qed.

(** A wait that ends has scanned the roster. *)
Lemma wait_scan reads inst fuel l : forall k k',
  wait_for_readers reads inst fuel k l = Ok k' -> scan_ends reads inst k l k'.
Proof.
  induction l as [|n l IH]; intros k k'; cbn [wait_for_readers scan_ends].
  - by intros [= <-].
  - intros H. apply bind_Ok in H as (k1 & Hs & Hw).
    apply spin_exact in Hs as (j & -> & Hj & Hbefore & Hne).
    exists j. split; [lia|]. split; [done|]. split; [done|]. by apply IH.
Qed.

(** A scan that ends is what the wait does, given fuel for the yields:
    there is one yield for each read beyond the one read per node. *)
Lemma scan_wait reads inst l : forall k k' fuel,
  scan_ends reads inst k l k' -> (k' - k - length l <= fuel)%nat ->
  wait_for_readers reads inst fuel k l = Ok k'.
Proof.
  induction l as [|n l IH]; intros k k' fuel; cbn [wait_for_readers scan_ends length].
  - by intros ->.
  - intros (j & Hj & Hbefore & Hne & H) Hf.
    pose proof (scan_ends_le _ _ _ _ _ H) as Hle.
    assert (Hs : spin reads inst fuel k (length l) = Ok (S j)).
    { apply spin_exact. exists j. split; [done|]. split; [lia|]. done. }
    rewrite Hs. cbn [bind]. apply IH; [done|lia].
Qed.

(** In a scan that ends every node has a read of its own that finds a
    status other than the old index, and these reads come in the order of
    the roster, the head (the highest address) first. *)
Lemma scan_ends_positions reads inst l : forall k k',
  scan_ends reads inst k l k' ->
  exists pos : nat -> nat,
    (forall a, (a < length l)%nat ->
               (k <= pos a < k')%nat /\ reads (pos a) a <> inst) /\
    (forall a a', (a < a' < length l)%nat -> (pos a' < pos a)%nat).
Proof.
  induction l as [|n l IH]; intros k k'; cbn [scan_ends length].
  - intros _. exists (fun _ => 0%nat). split; intros; lia.
  - intros (j & Hj & _ & Hne & H).
    pose proof (scan_ends_le _ _ _ _ _ H) as Hle.
    destruct (IH _ _ H) as (pos & Hpos & Hord).
    exists (fun a => if decide (a = length l) then j else pos a). split.
    + intros a Ha. destruct (decide (a = length l)) as [->|Hn].
      * split; [lia|done].
      * destruct (Hpos a ltac:(lia)) as [Hr Hv]. split; [lia|done].
    + intros a a' Ha.
      destruct (decide (a = length l)) as [->|Hn]; [lia|].
      destruct (decide (a' = length l)) as [->|Hn'].
      * destruct (Hpos a ltac:(lia)) as [Hr _]. lia.
      * apply Hord. lia.
Qed.

(** ** The block table *)

Lemma load_Ok {A} (l : list A) i x :
  load l i = Ok x <-> 0 <= i /\ l !! Z.to_nat i = Some x.
Proof.
  unfold load. destruct (Z.leb_spec 0 i).
  - destruct (l !! Z.to_nat i); simpl; split; try intros [= <-]; try done.
    + by intros [_ [= <-]].
    + by intros [_ ?].
  - split; [done|]. intros [? _]. lia.
Qed.

Lemma load_fmap_Some (vec : list nat) i :
  (let* b := load (Some <$> vec) i in of_option b) = load vec i.
Proof.
  unfold load. destruct (0 <=? i); [|done].
  rewrite list_lookup_fmap. by destruct (vec !! Z.to_nat i).
Qed.

Lemma load_cur st vec :
  data_ok st vec ->
  load (chpl_priv_instances st) (currentInstanceIdx st) = Ok (cur_inst st).
Proof.
  intros [Hi Ht _ _ _ _ _]. unfold cur_inst, load.
  destruct (chpl_priv_instances st) as [|i0 [|i1 [|]]]; try done.
  by destruct Hi as [-> | ->].
Qed.

Lemma block_of_cur st vec b :
  data_ok st vec -> block_of st (currentInstanceIdx st) b = load vec b.
Proof.
  intros H. unfold block_of. rewrite (load_cur _ _ H). simpl.
  rewrite (ok_cur _ _ H). simpl. apply load_fmap_Some.
Qed.

Lemma read_slot_cur st vec b idx :
  data_ok st vec ->
  read_slot st (currentInstanceIdx st) b idx = slot_of vec (mem st) b idx.
Proof.
  intros H. unfold read_slot, slot_of. by rewrite (block_of_cur _ _ _ H).
Qed.

Lemma data_ok_same st st' vec :
  same_data st st' -> data_ok st vec -> data_ok st' vec.
Proof.
  intros (Hm & Hi & Hc & _) [].
  split; unfold cur_inst in *; rewrite ?Hm, ?Hi, ?Hc; done.
Qed.

Lemma slot_of_defined vec m b idx :
  Forall (fun a => (a < length m)%nat) vec ->
  Forall (fun blk => length blk = 1024%nat) m ->
  0 <= b < Z.of_nat (length vec) -> 0 <= idx < 1024 ->
  exists x, slot_of vec m b idx = Ok x.
Proof.
  intros Hl Hm Hb Hi. unfold slot_of, load.
  destruct (Z.leb_spec 0 b); [|lia].
  destruct (lookup_lt_is_Some_2 vec (Z.to_nat b)) as [a Ha]; [lia|].
  rewrite Ha. cbn [bind of_option]. eapply Forall_lookup_1 in Hl; [|exact Ha].
  destruct (lookup_lt_is_Some_2 m a) as [blk Hblk]; [done|].
  rewrite Hblk. cbn [bind of_option]. eapply Forall_lookup_1 in Hm; [|exact Hblk].
  destruct (Z.leb_spec 0 idx); [|lia].
  destruct (lookup_lt_is_Some_2 blk (Z.to_nat idx)) as [x Hx]; [lia|].
  rewrite Hx. by exists x.
Qed.

Lemma slot_of_outside vec m b idx :
  Z.of_nat (length vec) <= b \/ b < 0 -> slot_of vec m b idx = Fault.
Proof.
  intros Hb. unfold slot_of, load. destruct (Z.leb_spec 0 b); [|done].
  rewrite lookup_ge_None_2; [done|lia].
Qed.

(** The effect of a store on the slots of the table. *)
Lemma write_slot_cur st vec b idx v :
  data_ok st vec ->
  0 <= b < Z.of_nat (length vec) -> 0 <= idx < 1024 ->
  exists st', write_slot st (currentInstanceIdx st) b idx v = Ok st' /\
    data_ok st' vec /\
    tls_list st' = tls_list st /\ reader_tls st' = reader_tls st /\
    writeLock st' = writeLock st /\
    length (mem st') = length (mem st) /\
    forall b' idx',
      slot_of vec (mem st') b' idx' =
      if decide (b' = b /\ idx' = idx) then Ok v
      else slot_of vec (mem st) b' idx'.
Proof.
  intros H Hb Hi. unfold write_slot. rewrite (block_of_cur _ _ _ H).
  unfold load at 1. destruct (Z.leb_spec 0 b); [|lia].
  destruct (lookup_lt_is_Some_2 vec (Z.to_nat b)) as [a Ha]; [lia|].
  rewrite Ha. cbn [bind of_option].
  pose proof (Forall_lookup_1 _ _ _ _ (ok_live _ _ H) Ha) as Hlt.
  destruct (lookup_lt_is_Some_2 (mem st) a) as [blk Hblk]; [done|].
  rewrite Hblk. cbn [bind of_option].
  pose proof (Forall_lookup_1 _ _ _ _ (ok_mem _ _ H) Hblk) as Hlen.
  unfold store. rewrite Hlen.
  destruct (Z.leb_spec 0 idx); [|lia].
  destruct (Z.ltb_spec idx (Z.of_nat 1024)); [|lia]. simpl.
  eexists. split; [done|].
  destruct H as [K1 K2 K3 K4 K5 K6 K7].
  destruct st as [m insts c l r w]. simpl in *.
  split; [|repeat split; try done; [by rewrite length_insert|]].
  - split; simpl; try done.
    + by rewrite length_insert.
    + apply Forall_lookup_2. intros i blk' Hi'.
      destruct (decide (i = a)) as [->|Hne].
      * rewrite list_lookup_insert_eq in Hi' by done.
        injection Hi' as <-. by rewrite length_insert.
      * rewrite list_lookup_insert_ne in Hi' by done.
        exact (Forall_lookup_1 _ _ _ _ K7 Hi').
  - intros b' idx'. unfold slot_of, load.
    destruct (Z.leb_spec 0 b'); [|by rewrite decide_False by lia].
    destruct (vec !! Z.to_nat b') as [a'|] eqn:Ha'; cbn [bind of_option];
      [|rewrite decide_False; [done|]; intros [-> _]; congruence].
    destruct (decide (a' = a)) as [->|Hne].
    + assert (b' = b) as ->.
      { pose proof (NoDup_lookup _ _ _ _ K5 Ha Ha'). lia. }
      rewrite list_lookup_insert_eq by done. rewrite Hblk. cbn [bind of_option].
      destruct (Z.leb_spec 0 idx'); [|by rewrite decide_False by lia].
      destruct (decide (idx' = idx)) as [->|Hne].
      * rewrite list_lookup_insert_eq by lia. by rewrite decide_True.
      * rewrite list_lookup_insert_ne by lia. by rewrite decide_False by tauto.
    + rewrite list_lookup_insert_ne by done.
      rewrite decide_False; [done|]. intros [-> _]. congruence.
Qed.

(** ** Growing *)

Lemma int_add_ok a b :
  INT_MIN <= a + b <= INT_MAX -> int_add a b = Ok (a + b).
Proof.
  intros H. unfold int_add.
  destruct (Z.leb_spec INT_MIN (a + b)); [|lia].
  destruct (Z.leb_spec (a + b) INT_MAX); [done|lia].
Qed.

Lemma delta_exact x : INT_MIN <= x <= INT_MAX -> to_int (to_size_t x) = x.
Proof.
  unfold INT_MIN, INT_MAX. intros H. destruct (Z_lt_le_dec x 0).
  - rewrite to_size_t_neg by lia.
    change (2 ^ 64) with (4294967296 * 4294967296).
    rewrite to_int_shift. apply to_int_id. unfold INT_MIN, INT_MAX. lia.
  - rewrite to_size_t_id by lia. apply to_int_id. unfold INT_MIN, INT_MAX. lia.
Qed.

Lemma alloc_ok {A} (zero : A) n size :
  n * size < 2 ^ 64 ->
  chpl_mem_allocManyZero zero n size = Ok (replicate (Z.to_nat n) zero).
Proof.
  intros H. unfold chpl_mem_allocManyZero.
  by destruct (Z.ltb_spec (n * size) (2 ^ 64)); [|lia].
Qed.

Lemma chpl_priv_block_create_eq st :
  chpl_priv_block_create st =
  Ok (Some (length (mem st)), set_mem (mem st ++ [zero_block]) st).
Proof. reflexivity. Qed.

Lemma memcpy_prefix {A} (x : A) (old : list A) n :
  (length old <= n)%nat -> Z.of_nat (length old) * sizeof_ptr < 2 ^ 64 ->
  chpl_memcpy (replicate n x) old (to_size_t (Z.of_nat (length old) * sizeof_ptr))
  = Ok (old ++ replicate (n - length old) x).
Proof.
  intros H Hb. unfold chpl_memcpy, sizeof_ptr in *.
  rewrite to_size_t_id by lia. rewrite Z.div_mul by lia.
  rewrite Nat2Z.id, length_replicate.
  destruct (Nat.leb_spec (length old) (length old)); [|lia].
  destruct (Nat.leb_spec (length old) n); [|lia]. simpl.
  by rewrite take_ge, drop_replicate by lia.
Qed.

Lemma fill_blocks_tls n : forall i nb st nb' st',
  fill_blocks n i nb st = Ok (nb', st') ->
  tls_list st' = tls_list st /\ reader_tls st' = reader_tls st /\
  chpl_priv_instances st' = chpl_priv_instances st /\
  currentInstanceIdx st' = currentInstanceIdx st /\
  writeLock st' = writeLock st /\ length nb' = length nb.
Proof.
  induction n as [|n IH]; intros i nb st nb' st'; cbn [fill_blocks].
  - by intros [= <- <-].
  - rewrite chpl_priv_block_create_eq. cbn [bind].
    intros H. apply bind_Ok in H as (nb1 & Hs & H).
    apply IH in H as (? & ? & ? & ? & ? & Hlen).
    unfold store in Hs. destruct (_ && _) in Hs; [|discriminate].
    injection Hs as <-. rewrite length_insert in Hlen. done.
Qed.

Lemma fill_blocks_fresh n : forall (pre : list (option nat)) st,
  fill_blocks n (Z.of_nat (length pre)) (pre ++ replicate n None) st =
  Ok (pre ++ (Some <$> seq (length (mem st)) n),
      set_mem (mem st ++ replicate n zero_block) st).
Proof.
  induction n as [|n IH]; intros pre st.
  - simpl. rewrite !app_nil_r. by destruct st.
  - cbn [fill_blocks]. rewrite chpl_priv_block_create_eq. cbn [bind].
    unfold store. rewrite length_app, length_replicate.
    destruct (Z.leb_spec 0 (Z.of_nat (length pre))); [|lia].
    destruct (Z.ltb_spec (Z.of_nat (length pre)) (Z.of_nat (length pre + S n)));
      [|lia].
    cbn [andb bind]. rewrite Nat2Z.id.
    rewrite insert_app_r_alt by lia. rewrite Nat.sub_diag. cbn [replicate].
    change (<[0%nat:=Some (length (mem st))]> (None :: replicate n None))
      with ([Some (length (mem st))] ++ replicate n (@None nat)).
    rewrite app_assoc.
    replace (Z.of_nat (length pre) + 1)
      with (Z.of_nat (length (pre ++ [Some (length (mem st))])))
      by (rewrite length_app; simpl; lia).
    rewrite IH. destruct st as [m insts c l r w]. cbn [mem set_mem].
    rewrite length_app. cbn [length]. rewrite <- !app_assoc.
    replace (length m + 1)%nat with (S (length m)) by lia.
    cbn [replicate seq fmap list_fmap app]. done.
Qed.

Lemma write_section_grow reads fuel st vec b :
  data_ok st vec -> writeLock st = false ->
  Z.of_nat (length vec) <= b < INT_MAX ->
  write_section reads fuel b st =
  let* _ := wait_for_readers reads (currentInstanceIdx st) fuel 0 (tls_list st) in
  Ok (true, grown st vec b).
Proof.
  intros [Hi Ht Hc Hl Hn Hv Hm] Hw Hb.
  destruct st as [m insts c l r w]. cbn [writeLock] in Hw. subst w.
  cbn [currentInstanceIdx chpl_priv_instances mem] in *.
  destruct insts as [|i0 [|i1 [|]]]; try done.
  unfold cur_inst in Hc. cbn [currentInstanceIdx chpl_priv_instances] in Hc.
  unfold write_section, acquireWrite, getCurrentInstanceIdx, grown.
  cbn [writeLock set_writeLock bind currentInstanceIdx chpl_priv_instances
       mem tls_list reader_tls].
  unfold INT_MAX in *.
  assert (Hld : load [i0; i1] c =
                Ok (mk_instance (Some (Some <$> vec)) (Z.of_nat (length vec)))).
  { rewrite <- Hc. by destruct Hi as [-> | ->]. }
  rewrite Hld. cbn [bind len blocks].
  rewrite int_add_ok by (unfold INT_MIN, INT_MAX; lia). cbn [bind].
  rewrite (to_size_t_id (b + 1)) by lia.
  rewrite delta_exact by (unfold INT_MIN, INT_MAX; lia).
  destruct (Z.leb_spec (b + 1 - Z.of_nat (length vec)) 0); [lia|].
  rewrite alloc_ok by (unfold sizeof_ptr; lia). cbn [bind of_option].
  rewrite <- (length_fmap Some vec) at 1.
  rewrite memcpy_prefix by (rewrite length_fmap; unfold sizeof_ptr; lia).
  cbn [bind]. rewrite length_fmap.
  rewrite to_int_id by (unfold INT_MIN, INT_MAX; lia).
  replace (Z.to_nat (b - Z.of_nat (length vec) + 1))
    with (Z.to_nat (b + 1) - length vec)%nat by lia.
  rewrite <- (length_fmap Some vec) at 2.
  rewrite fill_blocks_fresh. rewrite fmap_app.
  cbn [bind mem set_mem set_writeLock chpl_priv_instances
       currentInstanceIdx tls_list reader_tls writeLock].
  destruct Hi as [-> | ->]; simpl in Hc; subst;
    (destruct (wait_for_readers _ _ _ _ _) eqn:Hwait;
     [|by cbn; rewrite Hwait|by cbn; rewrite Hwait]);
    cbn; rewrite Hwait; reflexivity.
Qed.

Lemma grown_data_ok st vec b :
  data_ok st vec -> Z.of_nat (length vec) <= b < INT_MAX ->
  data_ok (grown st vec b)
          (vec ++ seq (length (mem st)) (Z.to_nat (b + 1) - length vec)).
Proof.
  intros [Hi Ht Hc Hl Hn Hv Hm] Hb. unfold INT_MAX in *.
  destruct st as [m insts c l r w].
  cbn [currentInstanceIdx chpl_priv_instances mem] in *.
  destruct insts as [|i0 [|i1 [|]]]; try done.
  assert (Hlen : length (vec ++ seq (length m) (Z.to_nat (b + 1) - length vec))
                 = Z.to_nat (b + 1)).
  { rewrite length_app, length_seq. lia. }
  split; unfold grown;
    cbn [currentInstanceIdx chpl_priv_instances mem tls_list reader_tls].
  - destruct Hi as [-> | ->]; cbn; lia.
  - by rewrite !length_insert.
  - unfold cur_inst. cbn [currentInstanceIdx chpl_priv_instances].
    rewrite Hlen. replace (Z.of_nat (Z.to_nat (b + 1))) with (b + 1) by lia.
    by destruct Hi as [-> | ->].
  - rewrite Hlen. unfold INT_MAX. lia.
  - apply NoDup_app. split; [done|]. split; [|apply NoDup_seq].
    intros a Ha Hs. apply elem_of_seq in Hs.
    eapply Forall_forall in Hv; [|exact Ha]. lia.
  - apply Forall_app. split.
    + eapply Forall_impl; [exact Hv|]. intros a Ha. simpl in *.
      rewrite length_app. lia.
    + apply Forall_forall. intros a Ha. apply elem_of_seq in Ha.
      rewrite length_app, length_replicate. lia.
  - apply Forall_app. split; [done|].
    apply Forall_forall. intros blk Hblk. apply elem_of_replicate in Hblk as [-> _].
    unfold zero_block. by rewrite length_replicate.
Qed.

Lemma write_section_enough reads fuel st vec b :
  data_ok st vec -> writeLock st = false ->
  0 <= b < Z.of_nat (length vec) ->
  write_section reads fuel b st = Ok (false, st).
Proof.
  intros H Hw Hb. pose proof (ok_len _ _ H) as Hl. unfold INT_MAX in Hl.
  unfold write_section, acquireWrite. rewrite Hw. cbn [bind].
  assert (Hs : data_ok (set_writeLock true st) vec).
  { destruct H. by split. }
  unfold getCurrentInstanceIdx.
  rewrite (load_cur _ vec) by done. cbn [bind].
  rewrite int_add_ok by (unfold INT_MIN, INT_MAX; lia). cbn [bind].
  rewrite (to_size_t_id (b + 1)) by lia.
  replace (cur_inst (set_writeLock true st)) with (cur_inst st) by done.
  rewrite (ok_cur _ _ H). cbn [len].
  rewrite delta_exact by (unfold INT_MIN, INT_MAX; lia).
  destruct (Z.leb_spec (b + 1 - Z.of_nat (length vec)) 0); [|lia].
  destruct st. cbn in Hw. by subst.
Qed.

(** A negative block index (a pid of 2^41 or more, narrowed to [int])
    never makes the section grow the table: either the section finds
    [deltaBlocks <= 0], or the allocation is refused. *)
Lemma write_section_negative reads fuel st vec b :
  data_ok st vec -> writeLock st = false ->
  INT_MIN <= b < 0 ->
  write_section reads fuel b st = Ok (false, st) \/
  write_section reads fuel b st = Fault.
Proof.
  intros H Hw Hb. pose proof (ok_len _ _ H) as Hl. unfold INT_MAX, INT_MIN in *.
  unfold write_section, acquireWrite. rewrite Hw. cbn [bind].
  assert (Hs : data_ok (set_writeLock true st) vec).
  { destruct H. by split. }
  unfold getCurrentInstanceIdx.
  rewrite (load_cur _ vec) by done. cbn [bind].
  rewrite int_add_ok by (unfold INT_MIN, INT_MAX; lia). cbn [bind].
  replace (cur_inst (set_writeLock true st)) with (cur_inst st) by done.
  rewrite (ok_cur _ _ H). cbn [len].
  destruct (Z.eq_dec (b + 1) 0) as [Hz|Hz].
  - left. rewrite Hz. rewrite (to_size_t_id 0) by lia.
    rewrite delta_exact by (unfold INT_MIN, INT_MAX; lia).
    destruct (Z.leb_spec (0 - Z.of_nat (length vec)) 0); [|lia].
    destruct st. cbn in Hw. by subst.
  - destruct (_ <=? 0).
    + left. destruct st. cbn in Hw. by subst.
    + right. unfold chpl_mem_allocManyZero, sizeof_ptr.
      destruct (Z.ltb_spec (to_size_t (b + 1) * 8) (2 ^ 64)) as [Hlt|]; [|done].
      rewrite to_size_t_neg in Hlt by lia. lia.
Qed.

Lemma write_section_max reads fuel st vec :
  data_ok st vec -> writeLock st = false ->
  write_section reads fuel INT_MAX st = Fault.
Proof.
  intros H Hw. unfold write_section, acquireWrite. rewrite Hw. cbn [bind].
  assert (Hs : data_ok (set_writeLock true st) vec).
  { destruct H. by split. }
  unfold getCurrentInstanceIdx. by rewrite (load_cur _ vec) by done.
Qed.

Lemma grown_slot_same vec m b idx :
  grown_slot vec m (Z.of_nat (length vec)) b idx = slot_of vec m b idx.
Proof.
  unfold grown_slot. destruct (Z.ltb_spec b (Z.of_nat (length vec))); [done|].
  cbn [andb]. symmetry. apply slot_of_outside. lia.
Qed.

Lemma zero_block_load idx :
  load zero_block idx = if (0 <=? idx) && (idx <? 1024) then Ok NULL else Fault.
Proof.
  unfold load, zero_block, CHPL_PRIVATIZATION_BLOCK_SIZE.
  destruct (Z.leb_spec 0 idx); [|done]. cbn [andb].
  destruct (Z.ltb_spec idx 1024).
  - rewrite lookup_replicate_2; [done|lia].
  - rewrite lookup_ge_None_2; [done|]. rewrite length_replicate. lia.
Qed.

Lemma slot_of_grown vec m k b idx :
  Forall (fun a => (a < length m)%nat) vec ->
  slot_of (vec ++ seq (length m) k) (m ++ replicate k zero_block) b idx =
  grown_slot vec m (Z.of_nat (length vec + k)) b idx.
Proof.
  intros Hv. unfold grown_slot, slot_of, load at 1 3.
  destruct (Z.leb_spec 0 b).
  - destruct (Z.ltb_spec b (Z.of_nat (length vec))).
    + rewrite lookup_app_l by lia.
      destruct (lookup_lt_is_Some_2 vec (Z.to_nat b)) as [a Ha]; [lia|].
      rewrite Ha. cbn [bind of_option].
      eapply Forall_lookup_1 in Hv; [|exact Ha].
      by rewrite lookup_app_l by done.
    + rewrite lookup_app_r by lia.
      destruct (Z.ltb_spec b (Z.of_nat (length vec + k))).
      * rewrite lookup_seq_lt by lia. cbn [bind of_option andb].
        rewrite lookup_app_r by lia.
        rewrite lookup_replicate_2 by lia. cbn [bind of_option].
        apply zero_block_load.
      * rewrite lookup_seq_ge by lia. done.
  - destruct (Z.ltb_spec b (Z.of_nat (length vec))); [done|lia].
Qed.

Lemma write_slot_outside st vec b idx v :
  data_ok st vec ->
  ~ (0 <= b < Z.of_nat (length vec) /\ 0 <= idx < 1024) ->
  write_slot st (currentInstanceIdx st) b idx v = Fault.
Proof.
  intros H Hout. unfold write_slot. rewrite (block_of_cur _ _ _ H).
  unfold load. destruct (Z.leb_spec 0 b); [|done].
  destruct (vec !! Z.to_nat b) as [a|] eqn:Ha; [|done]. cbn [bind of_option].
  pose proof (lookup_lt_Some _ _ _ Ha) as Hlt.
  pose proof (Forall_lookup_1 _ _ _ _ (ok_live _ _ H) Ha) as Hlive.
  destruct (lookup_lt_is_Some_2 (mem st) a) as [blk Hblk]; [done|].
  rewrite Hblk. cbn [bind of_option].
  pose proof (Forall_lookup_1 _ _ _ _ (ok_mem _ _ H) Hblk) as Hlen.
  unfold store. rewrite Hlen.
  destruct (Z.leb_spec 0 idx); [|done].
  destruct (Z.ltb_spec idx (Z.of_nat 1024)); [|done]. lia.
Qed.

(** ** The public operations on a well-formed state *)

Lemma wf_same st st' vec :
  same_data st st' -> tls_idle st' -> wf st vec -> wf st' vec.
Proof.
  intros Hs Hi (Hd & _ & Hw). split; [by eapply data_ok_same|].
  split; [done|]. destruct Hs as (_ & _ & _ & ->). done.
Qed.

Lemma geb_size_t b n :
  INT_MIN <= b <= INT_MAX -> 1 <= n <= INT_MAX ->
  (to_size_t b >=? n) = negb ((0 <=? b) && (b <? n)).
Proof.
  unfold INT_MIN, INT_MAX. intros Hb Hn. rewrite Z.geb_leb.
  destruct (Z.leb_spec 0 b); cbn [andb].
  - rewrite to_size_t_id by lia.
    destruct (Z.leb_spec n b), (Z.ltb_spec b n); try done; lia.
  - rewrite to_size_t_neg by lia.
    destruct (Z.leb_spec n (b + 2 ^ 64)); [done|lia].
Qed.

(** The first steps of every operation: enter the read section and fetch
    the current instance. *)
Lemma enter_read st vec :
  wf st vec ->
  exists st1, acquireRead st = Ok (currentInstanceIdx st, st1) /\
    same_data st st1 /\ tls_reading st1 /\ data_ok st1 vec /\
    load (chpl_priv_instances st1) (currentInstanceIdx st) =
      Ok (mk_instance (Some (Some <$> vec)) (Z.of_nat (length vec))).
Proof.
  intros (Hd & Hi & Hw).
  destruct (acquireRead_idle st Hi) as (st1 & Ha & Hs & Hr).
  exists st1. pose proof (data_ok_same _ _ _ Hs Hd) as Hd1.
  split; [done|]. split; [done|]. split; [done|]. split; [done|].
  destruct Hs as (_ & _ & Hc & _). rewrite <- Hc.
  rewrite (load_cur _ _ Hd1). by rewrite (ok_cur _ _ Hd1).
Qed.

Lemma publish_loop_store st vec v pid b :
  wf st vec -> 0 <= b < Z.of_nat (length vec) -> 0 <= idx_of pid < 1024 ->
  exists st', wf st' vec /\ length (mem st') = length (mem st) /\
    (forall b' idx',
        slot_of vec (mem st') b' idx' =
        if decide (b' = b /\ idx' = idx_of pid) then Ok v
        else slot_of vec (mem st) b' idx') /\
    forall fuel g, publish_loop (S fuel) v pid b g st = Ok (g, st').
Proof.
  intros Hwf Hb Hidx.
  destruct (enter_read _ _ Hwf) as (st1 & Ha & Hs & Hr & Hd1 & Hld).
  destruct Hwf as (Hd & Hi & Hw).
  pose proof (ok_len _ _ Hd) as Hl.
  destruct (write_slot_cur st1 vec b (idx_of pid) v Hd1 Hb Hidx)
    as (st2 & Hws & Hd2 & Ht2 & Hk2 & Hw2 & Hm2 & Hsl).
  destruct (releaseRead_reading st2) as (st3 & Hrel & Hs3 & Hi3).
  { by eapply tls_reading_data. }
  exists st3. destruct Hs as (Hsm & Hsi & Hsc & Hsw).
  destruct Hs3 as (Hm3 & Hi3' & Hc3 & Hw3).
  split; [|split; [|split]].
  - split; [by eapply data_ok_same|]. split; [done|]. congruence.
  - congruence.
  - intros b' idx'. rewrite Hm3, Hsl. by rewrite Hsm.
  - intros fuel g. cbn [publish_loop]. rewrite Ha. cbn [bind].
    rewrite Hld. cbn [bind len].
    rewrite geb_size_t by (unfold INT_MIN, INT_MAX in *; lia).
    destruct (Z.leb_spec 0 b); [|lia].
    destruct (Z.ltb_spec b (Z.of_nat (length vec))); [|lia]. cbn [andb negb].
    rewrite <- Hsc. fold (idx_of pid). rewrite Hws. cbn [bind].
    by rewrite Hrel.
Qed.

Lemma publish_loop_store_fault st vec v pid b fuel g :
  wf st vec -> 0 <= b < Z.of_nat (length vec) -> ~ 0 <= idx_of pid < 1024 ->
  publish_loop fuel v pid b g st = Fault \/
  publish_loop fuel v pid b g st = Timeout.
Proof.
  intros Hwf Hb Hidx. destruct fuel as [|fuel]; [by right|left].
  destruct (enter_read _ _ Hwf) as (st1 & Ha & Hs & Hr & Hd1 & Hld).
  destruct Hwf as (Hd & Hi & Hw).
  pose proof (ok_len _ _ Hd) as Hl.
  cbn [publish_loop]. rewrite Ha. cbn [bind]. rewrite Hld. cbn [bind len].
  rewrite geb_size_t by (unfold INT_MIN, INT_MAX in *; lia).
  destruct (Z.leb_spec 0 b); [|lia].
  destruct (Z.ltb_spec b (Z.of_nat (length vec))); [|lia]. cbn [andb negb].
  destruct Hs as (Hsm & Hsi & Hsc & Hsw). rewrite <- Hsc. fold (idx_of pid).
  rewrite (write_slot_outside _ vec) by (done || lia). done.
Qed.

(** The steps of a pass that has to get into the write section. *)
Lemma enter_write st vec v pid b :
  wf st vec -> INT_MIN <= b <= INT_MAX ->
  ~ 0 <= b < Z.of_nat (length vec) ->
  exists st2, wf st2 vec /\ same_data st st2 /\
    forall fuel g,
      publish_loop (S fuel) v pid b g st =
      let* (grew, st3) := write_section (frozen (tls_list st2)) fuel b st2 in
      publish_loop fuel v pid b (if grew : bool then S g else g) st3.
Proof.
  intros Hwf Hb Hout.
  destruct (enter_read _ _ Hwf) as (st1 & Ha & Hs & Hr & Hd1 & Hld).
  destruct (releaseRead_reading st1 Hr) as (st2 & Hrel & Hs2 & Hi2).
  pose proof (same_data_trans _ _ _ Hs Hs2) as Hs02.
  exists st2. split; [by eapply wf_same|]. split; [done|].
  intros fuel g. cbn [publish_loop]. rewrite Ha. cbn [bind].
  rewrite Hld. cbn [bind len].
  destruct Hwf as (Hd & Hi & Hw). pose proof (ok_len _ _ Hd) as Hl.
  rewrite geb_size_t by done.
  destruct (Z.leb_spec 0 b), (Z.ltb_spec b (Z.of_nat (length vec)));
    cbn [andb negb]; try lia; by rewrite Hrel.
Qed.

Lemma publish_loop_grow st vec v pid b :
  wf st vec -> Z.of_nat (length vec) <= b < INT_MAX ->
  exists st2,
    wf st2 (vec ++ seq (length (mem st)) (Z.to_nat (b + 1) - length vec)) /\
    mem st2 = mem st ++ replicate (Z.to_nat (b + 1) - length vec) zero_block /\
    forall fuel g,
      publish_loop (S fuel) v pid b g st = publish_loop fuel v pid b (S g) st2.
Proof.
  intros Hwf Hb.
  destruct (enter_write st vec v pid b Hwf) as (st2 & Hwf2 & Hs & Heq).
  { unfold INT_MIN, INT_MAX in *. lia. }
  { lia. }
  destruct Hwf2 as (Hd2 & Hi2 & Hw2).
  exists (grown st2 vec b). destruct Hs as (Hsm & Hsi & Hsc & Hsw).
  split; [|split].
  - split; [|split].
    + rewrite <- Hsm. by apply grown_data_ok.
    + exact Hi2.
    + done.
  - unfold grown. cbn [mem]. by rewrite Hsm.
  - intros fuel g. rewrite Heq.
    rewrite (write_section_grow _ _ _ vec) by done.
    rewrite wait_frozen_idle; [done|apply Hi2|].
    destruct (ok_idx _ _ Hd2) as [-> | ->]; done.
Qed.

Lemma publish_loop_negative st vec v pid b :
  INT_MIN <= b < 0 ->
  forall fuel g r, wf st vec -> publish_loop fuel v pid b g st <> Ok r.
Proof.
  intros Hb fuel. revert st. induction fuel as [|fuel IH]; intros st g r Hwf;
    [done|].
  destruct (enter_write st vec v pid b Hwf) as (st2 & Hwf2 & Hs & Heq).
  { unfold INT_MIN, INT_MAX in *. lia. }
  { lia. }
  rewrite Heq.
  destruct (write_section_negative (frozen (tls_list st2)) fuel st2 vec b)
    as [-> | ->]; try done; try apply Hwf2.
  cbn [bind]. by apply IH.
Qed.

Lemma publish_loop_max st vec v pid fuel g r :
  wf st vec -> publish_loop fuel v pid INT_MAX g st <> Ok r.
Proof.
  intros Hwf. destruct fuel as [|fuel]; [done|].
  pose proof (ok_len _ _ (proj1 Hwf)) as Hl.
  destruct (enter_write st vec v pid INT_MAX Hwf) as (st2 & Hwf2 & Hs & Heq).
  { unfold INT_MIN, INT_MAX in *. lia. }
  { destruct (proj1 Hwf). unfold INT_MAX in *. lia. }
  rewrite Heq. by rewrite (write_section_max _ _ _ vec) by apply Hwf2.
Qed.

(** Every returning pass of the loop of [chpl_newPrivatizedClass]: the
    block index is one the table can reach, the table has grown to it by at
    most one pass through the growing branch, and the slot holds [v]. *)
Lemma publish_loop_inv st vec v pid b fuel g g' st' :
  wf st vec -> INT_MIN <= b <= INT_MAX ->
  publish_loop fuel v pid b g st = Ok (g', st') ->
  0 <= b < INT_MAX /\ 0 <= idx_of pid < 1024 /\
  exists vec',
    wf st' vec' /\
    Z.of_nat (length vec') = Z.max (Z.of_nat (length vec)) (b + 1) /\
    g' = (if b <? Z.of_nat (length vec) then g else S g) /\
    forall b' idx',
      slot_of vec' (mem st') b' idx' =
      if decide (b' = b /\ idx' = idx_of pid) then Ok v
      else grown_slot vec (mem st) (Z.of_nat (length vec')) b' idx'.
Proof.
  intros Hwf Hb Hrun. pose proof (ok_len _ _ (proj1 Hwf)) as Hl.
  destruct (Z_lt_le_dec b 0) as [Hneg|Hpos].
  { exfalso. eapply (publish_loop_negative st vec v pid b); [lia|exact Hwf|exact Hrun]. }
  destruct (Z.eq_dec b INT_MAX) as [->|Hmax].
  { exfalso. by eapply publish_loop_max. }
  destruct (decide (0 <= idx_of pid < 1024)) as [Hidx|Hidx].
  2: { destruct (Z_lt_le_dec b (Z.of_nat (length vec))) as [Hin|Hout].
       - destruct (publish_loop_store_fault st vec v pid b fuel g Hwf) as [E|E];
           try done; try lia; rewrite E in Hrun; done.
       - exfalso.
         destruct (publish_loop_grow st vec v pid b Hwf) as (st2 & Hwf2 & Hm2 & Heq);
           [lia|].
         destruct fuel as [|fuel]; [done|]. rewrite Heq in Hrun.
         destruct (publish_loop_store_fault st2 _ v pid b fuel (S g) Hwf2) as [E|E];
           try done; try (rewrite E in Hrun; done).
         rewrite length_app, length_seq. lia. }
  split; [lia|]. split; [done|].
  destruct fuel as [|fuel]; [done|].
  destruct (Z.ltb_spec b (Z.of_nat (length vec))) as [Hin|Hout].
  - destruct (publish_loop_store st vec v pid b Hwf) as (st1 & Hwf1 & Hlen & Hsl & Heq);
      try done; try lia.
    rewrite Heq in Hrun. injection Hrun as <- <-.
    exists vec. split; [done|]. split; [lia|]. split; [done|].
    intros b' idx'. rewrite Hsl. by rewrite grown_slot_same.
  - destruct (publish_loop_grow st vec v pid b Hwf) as (st2 & Hwf2 & Hm2 & Heq);
      [lia|].
    rewrite Heq in Hrun. destruct fuel as [|fuel]; [done|].
    set (vec2 := vec ++ seq (length (mem st)) (Z.to_nat (b + 1) - length vec)) in *.
    assert (Hlen2 : length vec2 = (length vec + (Z.to_nat (b + 1) - length vec))%nat).
    { unfold vec2. by rewrite length_app, length_seq. }
    destruct (publish_loop_store st2 vec2 v pid b Hwf2) as (st3 & Hwf3 & Hlen & Hsl & Heq3);
      try done; try lia.
    rewrite Heq3 in Hrun. injection Hrun as <- <-.
    exists vec2. split; [done|]. split; [lia|]. split; [done|].
    intros b' idx'. rewrite Hsl. destruct (decide _); [done|].
    rewrite Hm2. unfold vec2. rewrite slot_of_grown by apply Hwf.
    by rewrite <- Hlen2.
Qed.

(** With a block index in range the loop returns within two passes. *)
Lemma publish_loop_total st vec v pid b fuel g :
  wf st vec -> 0 <= b < INT_MAX -> 0 <= idx_of pid < 1024 ->
  exists g' st', publish_loop (S (S fuel)) v pid b g st = Ok (g', st').
Proof.
  intros Hwf Hb Hidx.
  destruct (Z_lt_le_dec b (Z.of_nat (length vec))) as [Hin|Hout].
  - destruct (publish_loop_store st vec v pid b Hwf) as (st1 & _ & _ & _ & Heq);
      try done; try lia.
    rewrite Heq. eauto.
  - destruct (publish_loop_grow st vec v pid b Hwf) as (st2 & Hwf2 & Hm2 & Heq);
      [lia|].
    rewrite Heq.
    destruct (publish_loop_store st2 _ v pid b Hwf2) as (st3 & _ & _ & _ & Heq3);
      try done.
    { rewrite length_app, length_seq. lia. }
    rewrite Heq3. eauto.
Qed.

Lemma get_eq st vec :
  wf st vec ->
  exists st', wf st' vec /\ mem st' = mem st /\
    forall i, chpl_getPrivatizedClass i st =
              let* ret := slot_of vec (mem st) (blockIdx_of i) (idx_of i) in
              Ok (ret, st').
Proof.
  intros Hwf.
  destruct (enter_read _ _ Hwf) as (st1 & Ha & Hs & Hr & Hd1 & Hld).
  destruct (releaseRead_reading st1 Hr) as (st2 & Hrel & Hs2 & Hi2).
  pose proof (same_data_trans _ _ _ Hs Hs2) as Hs02.
  exists st2. split; [by eapply wf_same|]. split; [apply Hs02|].
  intros i. unfold chpl_getPrivatizedClass. rewrite Ha. cbn [bind].
  destruct Hs as (Hsm & Hsi & Hsc & Hsw). rewrite <- Hsc.
  rewrite (read_slot_cur _ vec) by done. rewrite Hsm.
  fold (blockIdx_of i) (idx_of i).
  destruct (slot_of vec (mem st) (blockIdx_of i) (idx_of i)); cbn [bind]; try done.
  by rewrite Hrel.
Qed.

Lemma clear_inside st vec i :
  wf st vec ->
  0 <= blockIdx_of i < Z.of_nat (length vec) -> 0 <= idx_of i < 1024 ->
  exists st', chpl_clearPrivatizedClass i st = Ok st' /\ wf st' vec /\
    forall b' idx',
      slot_of vec (mem st') b' idx' =
      if decide (b' = blockIdx_of i /\ idx' = idx_of i) then Ok NULL
      else slot_of vec (mem st) b' idx'.
Proof.
  intros Hwf Hb Hidx.
  destruct (enter_read _ _ Hwf) as (st1 & Ha & Hs & Hr & Hd1 & Hld).
  destruct Hwf as (Hd & Hi & Hw).
  destruct (write_slot_cur st1 vec (blockIdx_of i) (idx_of i) NULL Hd1 Hb Hidx)
    as (st2 & Hws & Hd2 & Ht2 & Hk2 & Hw2 & Hm2 & Hsl).
  destruct (releaseRead_reading st2) as (st3 & Hrel & Hs3 & Hi3).
  { by eapply tls_reading_data. }
  exists st3. destruct Hs as (Hsm & Hsi & Hsc & Hsw).
  destruct Hs3 as (Hm3 & Hi3' & Hc3 & Hw3).
  split; [|split].
  - unfold chpl_clearPrivatizedClass. rewrite Ha. cbn [bind].
    fold (blockIdx_of i) (idx_of i). rewrite <- Hsc. rewrite Hws. done.
  - split; [by eapply data_ok_same|]. split; [done|]. congruence.
  - intros b' idx'. rewrite Hm3, Hsl. by rewrite Hsm.
Qed.

Lemma clear_outside st vec i :
  wf st vec ->
  ~ (0 <= blockIdx_of i < Z.of_nat (length vec) /\ 0 <= idx_of i < 1024) ->
  chpl_clearPrivatizedClass i st = Fault.
Proof.
  intros Hwf Hout.
  destruct (enter_read _ _ Hwf) as (st1 & Ha & Hs & Hr & Hd1 & Hld).
  unfold chpl_clearPrivatizedClass. rewrite Ha. cbn [bind].
  fold (blockIdx_of i) (idx_of i).
  destruct Hs as (Hsm & Hsi & Hsc & Hsw). rewrite <- Hsc.
  by rewrite (write_slot_outside _ vec).
Qed.

Lemma capacity_eq st vec :
  wf st vec ->
  exists st', wf st' vec /\ mem st' = mem st /\
    chpl_numPrivatizedClasses st =
    Ok (Z.of_nat (length vec) * CHPL_PRIVATIZATION_BLOCK_SIZE, st').
Proof.
  intros Hwf.
  destruct (enter_read _ _ Hwf) as (st1 & Ha & Hs & Hr & Hd1 & Hld).
  destruct (releaseRead_reading st1 Hr) as (st2 & Hrel & Hs2 & Hi2).
  pose proof (same_data_trans _ _ _ Hs Hs2) as Hs02.
  exists st2. split; [by eapply wf_same|]. split; [apply Hs02|].
  unfold chpl_numPrivatizedClasses. rewrite Ha. cbn [bind].
  rewrite Hld. cbn [bind len]. rewrite Hrel. cbn [bind].
  pose proof (ok_len _ _ (proj1 Hwf)) as Hl.
  unfold INT_MAX, CHPL_PRIVATIZATION_BLOCK_SIZE in *.
  rewrite to_size_t_id by lia. rewrite to_int64_t_id by lia. done.
Qed.

(** ** Executions *)

Lemma init_wf : wf chpl_privatization_init [0%nat].
Proof.
  split; [|split].
  - split; cbn.
    + by left.
    + done.
    + done.
    + unfold INT_MAX. lia.
    + apply NoDup_singleton.
    + repeat constructor.
    + repeat constructor.
  - split; [constructor|]. intros a. cbn. discriminate.
  - done.
Qed.

Lemma blockIdx_of_range pid : INT_MIN <= blockIdx_of pid <= INT_MAX.
Proof. apply to_int_range. Qed.

Lemma exec_effect fuel o st vec st' :
  wf st vec -> exec fuel o st = Ok st' ->
  exists vec',
    wf st' vec' /\ (length vec <= length vec')%nat /\
    forall b idx,
      slot_of vec' (mem st') b idx =
      match written o b idx with
      | Some x => Ok x
      | None => grown_slot vec (mem st) (Z.of_nat (length vec')) b idx
      end.
Proof.
  intros Hwf Hrun. destruct o as [v pid|pid|pid|]; cbn [exec written] in *.
  - apply bind_Ok in Hrun as ([g' st1] & Hrun & [= <-]).
    unfold chpl_newPrivatizedClass in Hrun. fold (blockIdx_of pid) in Hrun.
    apply (publish_loop_inv _ vec) in Hrun
      as (_ & _ & vec' & Hwf' & Hlen & _ & Hsl);
      [|done|apply blockIdx_of_range].
    exists vec'. split; [done|]. split; [lia|].
    intros b idx. rewrite Hsl. by destruct (decide _).
  - destruct (get_eq _ _ Hwf) as (st2 & Hwf2 & Hm & Heq).
    rewrite Heq in Hrun.
    apply bind_Ok in Hrun as ([x st1] & Hrun & [= <-]).
    apply bind_Ok in Hrun as (y & _ & [= _ <-]).
    exists vec. split; [done|]. split; [done|].
    intros b idx. by rewrite Hm, grown_slot_same.
  - destruct (decide (0 <= blockIdx_of pid < Z.of_nat (length vec)
                      /\ 0 <= idx_of pid < 1024)) as [[Hb Hi]|Hout].
    + destruct (clear_inside _ _ pid Hwf Hb Hi) as (st2 & Heq & Hwf2 & Hsl).
      rewrite Heq in Hrun. injection Hrun as <-.
      exists vec. split; [done|]. split; [done|].
      intros b idx. rewrite Hsl. destruct (decide _); [done|].
      by rewrite grown_slot_same.
    + by rewrite (clear_outside _ vec) in Hrun.
  - destruct (capacity_eq _ _ Hwf) as (st2 & Hwf2 & Hm & Heq).
    rewrite Heq in Hrun. cbn in Hrun. injection Hrun as <-.
    exists vec. split; [done|]. split; [done|].
    intros b idx. by rewrite Hm, grown_slot_same.
Qed.

Lemma run_wf fuel ops : forall st vec st',
  wf st vec -> run fuel ops st = Ok st' ->
  exists vec', wf st' vec' /\ (length vec <= length vec')%nat.
Proof.
  induction ops as [|o ops IH]; intros st vec st' Hwf Hrun; cbn [run] in Hrun.
  - injection Hrun as <-. by exists vec.
  - apply bind_Ok in Hrun as (st1 & Hex & Hrun).
    destruct (exec_effect _ _ _ _ _ Hwf Hex) as (vec1 & Hwf1 & Hle & _).
    destruct (IH _ _ _ Hwf1 Hrun) as (vec' & Hwf' & Hle').
    exists vec'. split; [done|lia].
Qed.

Lemma reachable_wf st : reachable st -> exists vec, wf st vec.
Proof.
  intros (fuel & ops & Hrun).
  destruct (run_wf _ _ _ _ _ init_wf Hrun) as (vec & Hwf & _). by exists vec.
Qed.

Lemma wf_len st vec : wf st vec -> len (cur_inst st) = Z.of_nat (length vec).
Proof. intros (Hd & _). by rewrite (ok_cur _ _ Hd). Qed.

Lemma grown_slot_null vec m n b idx :
  0 <= b < n -> 0 <= idx < 1024 ->
  (b < Z.of_nat (length vec) -> slot_of vec m b idx = Ok NULL) ->
  grown_slot vec m n b idx = Ok NULL.
Proof.
  intros Hb Hi H0. unfold grown_slot.
  destruct (Z.ltb_spec b (Z.of_nat (length vec))); [by apply H0|].
  destruct (Z.ltb_spec b n); [|lia].
  destruct (Z.leb_spec 0 idx); [|lia].
  by destruct (Z.ltb_spec idx 1024); [|lia].
Qed.

(** A slot no publish of the execution stored into holds null, provided
    it did when the execution started. *)
Lemma run_null fuel ops : forall st vec st',
  wf st vec -> run fuel ops st = Ok st' ->
  exists vec', wf st' vec' /\
    forall b idx,
      0 <= b < Z.of_nat (length vec') -> 0 <= idx < 1024 ->
      never_stored ops b idx ->
      (b < Z.of_nat (length vec) -> slot_of vec (mem st) b idx = Ok NULL) ->
      slot_of vec' (mem st') b idx = Ok NULL.
Proof.
  induction ops as [|o ops IH]; intros st vec st' Hwf Hrun; cbn [run] in Hrun.
  - injection Hrun as <-. exists vec. split; [done|].
    intros b idx Hb Hi _ H. apply H. lia.
  - apply bind_Ok in Hrun as (st1 & Hex & Hrun).
    destruct (exec_effect _ _ _ _ _ Hwf Hex) as (vec1 & Hwf1 & Hle & Hsl).
    destruct (IH _ _ _ Hwf1 Hrun) as (vec' & Hwf' & Hnull).
    exists vec'. split; [done|].
    intros b idx Hb Hi Hnever H0. apply Hnull; try done.
    { intros v pid Hin. apply (Hnever v pid). by right. }
    intros Hb1. rewrite Hsl.
    assert (Hg : grown_slot vec (mem st) (Z.of_nat (length vec1)) b idx = Ok NULL).
    { apply grown_slot_null; try done. lia. }
    destruct o as [v pid|pid|pid|]; cbn [written]; try done.
    + destruct (decide _) as [Hd|Hd]; [|done].
      exfalso. eapply Hnever; [left|exact Hd].
    + by destruct (decide _).
Qed.

(** ** Pids and slots *)

Lemma blockIdx_of_exact pid :
  0 <= pid -> pid / CHPL_PRIVATIZATION_BLOCK_SIZE <= INT_MAX ->
  blockIdx_of pid = pid / CHPL_PRIVATIZATION_BLOCK_SIZE.
Proof.
  unfold blockIdx_of, CHPL_PRIVATIZATION_BLOCK_SIZE, INT_MAX. intros H0 H1.
  rewrite Z.quot_div_nonneg by lia.
  pose proof (Z.div_pos pid 1024). apply to_int_id. unfold INT_MIN, INT_MAX. lia.
Qed.

Lemma idx_of_exact pid :
  0 <= pid -> idx_of pid = pid mod CHPL_PRIVATIZATION_BLOCK_SIZE.
Proof.
  unfold idx_of, CHPL_PRIVATIZATION_BLOCK_SIZE. intros H0.
  rewrite Z.rem_mod_nonneg by lia.
  pose proof (Z.mod_pos_bound pid 1024). apply to_int_id. unfold INT_MIN, INT_MAX. lia.
Qed.

Lemma idx_of_bound pid : 0 <= pid -> 0 <= idx_of pid < 1024.
Proof.
  intros H. rewrite idx_of_exact by done. unfold CHPL_PRIVATIZATION_BLOCK_SIZE.
  apply Z.mod_pos_bound. lia.
Qed.

Lemma pid_limit_div pid :
  0 <= pid < PID_LIMIT -> 0 <= pid / CHPL_PRIVATIZATION_BLOCK_SIZE < INT_MAX.
Proof.
  unfold PID_LIMIT, CHPL_PRIVATIZATION_BLOCK_SIZE, INT_MAX. intros H. split.
  - apply Z.div_pos; lia.
  - apply Z.div_lt_upper_bound; lia.
Qed.

Lemma slot_injective p q :
  0 <= p -> 0 <= q ->
  p / CHPL_PRIVATIZATION_BLOCK_SIZE <= INT_MAX ->
  q / CHPL_PRIVATIZATION_BLOCK_SIZE <= INT_MAX ->
  blockIdx_of p = blockIdx_of q -> idx_of p = idx_of q -> p = q.
Proof.
  intros Hp Hq Hp1 Hq1. rewrite !blockIdx_of_exact, !idx_of_exact by done.
  unfold CHPL_PRIVATIZATION_BLOCK_SIZE. intros Hb Hi.
  rewrite (Z.div_mod p 1024), (Z.div_mod q 1024) by lia. congruence.
Qed.

Lemma get_value st vec p y :
  wf st vec ->
  slot_of vec (mem st) (blockIdx_of p) (idx_of p) = Ok y ->
  exists st', chpl_getPrivatizedClass p st = Ok (y, st').
Proof.
  intros Hwf Hy. destruct (get_eq _ _ Hwf) as (st' & _ & _ & Heq).
  exists st'. by rewrite Heq, Hy.
Qed.

Lemma get_inside st vec p :
  wf st vec -> 0 <= p ->
  p / CHPL_PRIVATIZATION_BLOCK_SIZE < Z.of_nat (length vec) ->
  blockIdx_of p = p / CHPL_PRIVATIZATION_BLOCK_SIZE /\
  0 <= blockIdx_of p < Z.of_nat (length vec) /\ 0 <= idx_of p < 1024 /\
  exists y, slot_of vec (mem st) (blockIdx_of p) (idx_of p) = Ok y.
Proof.
  intros Hwf Hp Hin. pose proof (ok_len _ _ (proj1 Hwf)) as Hl.
  assert (Hb : blockIdx_of p = p / CHPL_PRIVATIZATION_BLOCK_SIZE).
  { apply blockIdx_of_exact; [done|lia]. }
  assert (0 <= p / CHPL_PRIVATIZATION_BLOCK_SIZE).
  { apply Z.div_pos; [done|]. unfold CHPL_PRIVATIZATION_BLOCK_SIZE. lia. }
  pose proof (idx_of_bound p Hp) as Hi.
  split; [done|]. split; [lia|]. split; [done|].
  apply slot_of_defined; try apply Hwf; try done. lia.
Qed.

(** ** What the operations leave alone *)

Lemma set_status_frame a s st st' :
  set_status a s st = Ok st' ->
  same_data st st' /\ reader_tls st' = reader_tls st /\
  length (tls_list st') = length (tls_list st) /\
  (a < length (tls_list st))%nat /\
  exists n, node_at (tls_list st') a = Some n /\ status n = s.
Proof.
  unfold set_status. destruct (node_at (tls_list st) a) as [n|] eqn:Hn;
    [|discriminate].
  intros [= <-]. destruct st as [m insts c l r w]. cbn in *.
  unfold node_at in *. destruct (Nat.ltb_spec a (length l)); [|discriminate].
  rewrite length_insert. split; [by repeat split|]. split; [done|].
  split; [done|]. split; [done|].
  destruct (Nat.ltb_spec a (length l)); [|lia].
  exists (mk_node (in_use n) s). split; [|done].
  unfold node_index. rewrite length_insert.
  apply list_lookup_insert_eq. lia.
Qed.

Lemma init_tls_frame lost st : same_data st (init_tls lost st).
Proof.
  unfold init_tls. destruct (init_tls_walk lost (tls_list st)) as [l [a|]];
    by repeat split.
Qed.

Lemma acquireRead_frame st i st' :
  acquireRead st = Ok (i, st') ->
  i = currentInstanceIdx st /\ same_data st st' /\
  exists a n, reader_tls st' = Some a /\ node_at (tls_list st') a = Some n /\
              status n = to_uint8_t i.
Proof.
  unfold acquireRead. intros H.
  set (st0 := match reader_tls st with
              | Some _ => st
              | None => init_tls alone st
              end) in *.
  assert (Hs0 : same_data st st0).
  { unfold st0. destruct (reader_tls st); [apply same_data_refl|apply init_tls_frame]. }
  apply bind_Ok in H as (a & Ha & H). apply bind_Ok in H as (st1 & Hst & H).
  injection H as <- <-.
  apply set_status_frame in Hst as (Hs1 & Hr & _ & _ & n & Hn & Hsn).
  destruct (reader_tls st0) as [a0|] eqn:Hr0; [|discriminate]. injection Ha as <-.
  split; [apply Hs0|]. split; [by eapply same_data_trans|].
  exists a0, n. by rewrite Hr.
Qed.

Lemma releaseRead_frame st st' :
  releaseRead st = Ok st' ->
  same_data st st' /\ reader_tls st' = reader_tls st /\
  length (tls_list st') = length (tls_list st).
Proof.
  unfold releaseRead. intros H. apply bind_Ok in H as (a & _ & H).
  apply set_status_frame in H as (? & ? & ? & _). done.
Qed.

Lemma write_slot_frame st rcIdx b idx v st' :
  write_slot st rcIdx b idx v = Ok st' ->
  chpl_priv_instances st' = chpl_priv_instances st /\
  currentInstanceIdx st' = currentInstanceIdx st /\
  tls_list st' = tls_list st /\ reader_tls st' = reader_tls st /\
  writeLock st' = writeLock st /\ length (mem st') = length (mem st).
Proof.
  unfold write_slot. intros H.
  apply bind_Ok in H as (a & _ & H). apply bind_Ok in H as (blk & _ & H).
  apply bind_Ok in H as (blk' & _ & H). injection H as <-.
  destruct st; cbn. by rewrite length_insert.
Qed.

Lemma write_section_frame reads fuel b st g st' :
  write_section reads fuel b st = Ok (g, st') ->
  tls_list st' = tls_list st /\ reader_tls st' = reader_tls st.
Proof.
  unfold write_section. intros H.
  apply bind_Ok in H as (st1 & Haw & H).
  unfold acquireWrite in Haw. destruct (writeLock st); [discriminate|].
  injection Haw as <-.
  apply bind_Ok in H as (inst & Hinst & H).
  apply bind_Ok in H as (n & Hn & H).
  destruct (_ <=? 0); [by injection H as <- <-|].
  apply bind_Ok in H as (nb & Hnb & H).
  apply bind_Ok in H as (old & Hold & H).
  apply bind_Ok in H as (nb0 & Hnb0 & H).
  apply bind_Ok in H as ([nb1 st2] & Hfill & H).
  apply bind_Ok in H as (insts & Hst & H).
  apply bind_Ok in H as (k & Hwait & H).
  apply bind_Ok in H as (inst2 & Hinst2 & H).
  apply bind_Ok in H as (insts2 & Hst2 & H).
  injection H as <- <-.
  apply fill_blocks_tls in Hfill as (Htl & Hrd & _). cbn. by rewrite Htl, Hrd.
Qed.

Lemma publish_loop_store_frame fuel v pid b g st vec g' st' :
  wf st vec -> 0 <= b < Z.of_nat (length vec) ->
  publish_loop fuel v pid b g st = Ok (g', st') ->
  chpl_priv_instances st' = chpl_priv_instances st /\
  currentInstanceIdx st' = currentInstanceIdx st.
Proof.
  intros Hwf Hb H. destruct fuel as [|fuel]; [done|].
  cbn [publish_loop] in H.
  destruct (enter_read _ _ Hwf) as (st1 & Ha & Hs & _ & _ & Hld).
  rewrite Ha in H. cbn [bind] in H. rewrite Hld in H. cbn [bind len] in H.
  pose proof (ok_len _ _ (proj1 Hwf)) as Hl.
  rewrite geb_size_t in H by (unfold INT_MIN, INT_MAX in *; lia).
  destruct (Z.leb_spec 0 b); [|lia].
  destruct (Z.ltb_spec b (Z.of_nat (length vec))); [|lia].
  cbn [andb negb] in H.
  apply bind_Ok in H as (st2 & Hws & H).
  apply bind_Ok in H as (st3 & Hrel & H). injection H as _ <-.
  apply write_slot_frame in Hws as (Hi2 & Hc2 & _).
  apply releaseRead_frame in Hrel as ((_ & Hi3 & Hc3 & _) & _).
  destruct Hs as (_ & Hi1 & Hc1 & _). split; congruence.
Qed.

(** * The claims *)

(** ** C1: the roster's reclaim-then-create walk *)

(** C1 (the code departs from the claim).  The claim has a thread adopt the
    free node on which its compare-and-swap succeeds, and allocate only when
    no node was reclaimed.  In [init_tls] a successful swap runs
    [continue]: on the roster left by a first thread (one node, taken from
    [chpl_calloc] with [in_use] still false) a second thread that runs
    undisturbed sets the node's flag, passes over it, allocates a node of
    its own at the head and binds that one.  Whatever the roster, a walk
    all of whose swaps succeed marks every free node and stops at none. *)
Theorem init_tls_passes_over_node_it_won :
  let st := set_reader_tls None
              (set_tls_list [mk_node false 255] chpl_privatization_init) in
  tls_list (init_tls alone st) = [mk_node false 255; mk_node true 255] /\
  reader_tls (init_tls alone st) = Some 1%nat /\
  forall l, init_tls_walk alone l = (mark <$> l, None).
Proof.
  split; [reflexivity|]. split; [reflexivity|]. apply init_tls_walk_alone.
Qed.

(** ** C2: reading a pid that was never published *)

(** C2 (counterexample).  On the initial one-block state, [get] of pid 1024
    indexes the blocks vector at 1, past its single entry: the read is out
    of bounds, no null is returned.  And pid 0, never published, reads 7
    once pid 2^42, whose block index narrows to 0, has been published. *)
Lemma get_beyond_len_out_of_bounds :
  chpl_getPrivatizedClass 1024 chpl_privatization_init = Fault /\
  (let* st := run 2 [Publish 7 (2 ^ 42)] chpl_privatization_init in
   returned (chpl_getPrivatizedClass 0 st)) = Ok 7.
Proof. split; vm_compute; reflexivity. Qed.

Lemma init_slots_null b idx :
  0 <= b < 1 -> 0 <= idx < 1024 ->
  slot_of [0%nat] (mem chpl_privatization_init) b idx = Ok NULL.
Proof.
  intros Hb Hi. replace b with 0 by lia.
  change (mem chpl_privatization_init) with [zero_block].
  unfold slot_of. change (load [0%nat] 0) with (Ok 0%nat). cbn [bind of_option].
  change ([zero_block] !! 0%nat) with (Some zero_block). cbn [bind of_option].
  rewrite zero_block_load.
  destruct (Z.leb_spec 0 idx); [|lia]. by destruct (Z.ltb_spec idx 1024); [|lia].
Qed.

(** C2 (amended).  After any execution from [chpl_privatization_init] whose
    publishes all used pids in [0, PID_LIMIT), a pid [p] that lies within
    the current instance ([p / BLOCK_SIZE < len]) and that no publish of
    the execution named reads as null. *)
Theorem get_unpublished_null fuel ops st p :
  run fuel ops chpl_privatization_init = Ok st ->
  0 <= p -> p / CHPL_PRIVATIZATION_BLOCK_SIZE < len (cur_inst st) ->
  (forall v q, Publish v q ∈ ops -> 0 <= q < PID_LIMIT /\ q <> p) ->
  exists st', chpl_getPrivatizedClass p st = Ok (NULL, st').
Proof.
  intros Hrun Hp Hin Hnever.
  destruct (run_null _ _ _ _ _ init_wf Hrun) as (vec & Hwf & Hnull).
  rewrite (wf_len _ _ Hwf) in Hin.
  destruct (get_inside _ _ p Hwf Hp Hin) as (Hb & Hbr & Hir & _).
  pose proof (ok_len _ _ (proj1 Hwf)) as Hl.
  apply (get_value _ vec); [done|]. apply Hnull; try done.
  - intros v q Hq [Ebq Eiq]. destruct (Hnever v q Hq) as [Hq0 Hne].
    apply Hne. symmetry. apply slot_injective; try done; try lia.
    apply pid_limit_div in Hq0. lia.
  - intros Hb1. apply init_slots_null; [|done]. cbn [length] in Hb1. lia.
Qed.

Lemma get_unpublished_null_witness :
  run 2 [Publish 7 5000; Clear 3] chpl_privatization_init = Ok sparse_state /\
  exists st', chpl_getPrivatizedClass 4999 sparse_state = Ok (NULL, st').
Proof.
  split; [vm_compute; reflexivity|].
  apply (get_unpublished_null 2 [Publish 7 5000; Clear 3] sparse_state 4999).
  - vm_compute; reflexivity.
  - lia.
  - vm_compute; reflexivity.
  - intros v q Hq. apply list_elem_of_In in Hq. simpl in Hq.
    destruct Hq as [Hq|[Hq|[]]]; [|discriminate Hq].
    injection Hq as <- <-. unfold PID_LIMIT, INT_MAX, CHPL_PRIVATIZATION_BLOCK_SIZE. lia.
Defined.

(** ** C3: the old blocks vector is freed after the readers have left *)

Lemma store_Ok {A} (l : list A) i x l' :
  store l i x = Ok l' ->
  0 <= i < Z.of_nat (length l) /\ l' = <[Z.to_nat i := x]> l.
Proof.
  unfold store. destruct (Z.leb_spec 0 i), (Z.ltb_spec i (Z.of_nat (length l)));
    cbn [andb]; try discriminate.
  intros [= <-]. split; [lia|done].
Qed.

(** A write section that grew: its wait for the readers came to an end,
    and it left the blocks pointer of the old instance freed. *)
Lemma write_section_grew reads fuel b st st' :
  write_section reads fuel b st = Ok (true, st') ->
  (exists k, wait_for_readers reads (currentInstanceIdx st) fuel 0 (tls_list st)
             = Ok k) /\
  exists n, load (chpl_priv_instances st') (currentInstanceIdx st)
            = Ok (mk_instance None n).
Proof.
  unfold write_section. intros H.
  apply bind_Ok in H as (st1 & Haw & H).
  unfold acquireWrite in Haw. destruct (writeLock st); [discriminate|].
  injection Haw as <-.
  apply bind_Ok in H as (inst & Hinst & H).
  apply bind_Ok in H as (n & Hn & H).
  destruct (_ <=? 0); [discriminate|].
  apply bind_Ok in H as (nb & Hnb & H).
  apply bind_Ok in H as (old & Hold & H).
  apply bind_Ok in H as (nb0 & Hnb0 & H).
  apply bind_Ok in H as ([nb1 st2] & Hfill & H).
  apply bind_Ok in H as (insts & Hst & H).
  apply bind_Ok in H as (k & Hwait & H).
  apply bind_Ok in H as (inst2 & Hinst2 & H).
  apply bind_Ok in H as (insts2 & Hst2 & H).
  injection H as <-.
  apply fill_blocks_tls in Hfill as (Htl & _ & _ & _ & _ & _).
  cbn [tls_list set_currentInstanceIdx set_instances] in Hwait.
  rewrite Htl in Hwait. split; [by exists k|].
  apply store_Ok in Hst2 as [Hr ->].
  exists (len inst2). unfold releaseWrite.
  cbn [chpl_priv_instances set_writeLock set_instances].
  unfold getCurrentInstanceIdx in *. cbn [currentInstanceIdx set_writeLock] in *.
  unfold load. destruct (Z.leb_spec 0 (currentInstanceIdx st)); [|lia].
  rewrite list_lookup_insert_eq; [done|].
  cbn [chpl_priv_instances set_currentInstanceIdx set_instances] in *. lia.
Qed.

(** C3 (counterexample).  Two nodes in the roster, the old index being 0.
    The node of address 1 is idle when the writer reads it and shows the
    old index from then on; the node of address 0 shows the old index
    until the writer's fourth read.  At every read some node of the roster
    shows the old index, and the node of address 1 shows it at every read
    after the first, yet the wait ends: the section frees the blocks
    vector of instance 0 and returns. *)
Lemma free_while_node_shows_old_index :
  currentInstanceIdx two_threads = 0 /\
  length (tls_list two_threads) = 2%nat /\
  (forall k, exists a, (a < 2)%nat /\ reader_comes_in k a = 0) /\
  (forall k, (1 <= k)%nat -> reader_comes_in k 1%nat = 0) /\
  (let* (grew, st') := write_section reader_comes_in 2 1 two_threads in
   Ok (grew, load (chpl_priv_instances st') 0, currentInstanceIdx st'))
  = Ok (true, Ok (mk_instance None 1), 1).
Proof.
  split; [done|]. split; [done|]. split; [|split].
  - intros k. destruct k as [|k].
    + exists 0%nat. split; [lia|done].
    + exists 1%nat. split; [lia|done].
  - intros k Hk. unfold reader_comes_in. cbn [Nat.eqb].
    destruct k; [lia|done].
  - vm_compute. reflexivity.
Qed.

(** C3 (amended).  The writer waits for the nodes one at a time.  The wait
    ends exactly when the scan of the roster ends: each node in turn, from
    the read at which the loop comes to it, is read until a read finds a
    status other than the old index, whatever the other threads do to the
    fields between two reads, and whatever a node that has been passed
    shows afterwards.  A write section that grew has made such a scan
    before it freed the blocks vector of the old instance, and a section
    that has to grow comes to its end exactly when that scan ends.  When
    the fields keep their values this is: every node has a status other
    than the old index.  A node that shows the old index at every read
    keeps the writer from ever freeing. *)
Theorem quiescence_before_free :
  (forall reads inst k l k',
      (exists fuel, wait_for_readers reads inst fuel k l = Ok k') <->
      scan_ends reads inst k l k') /\
  (forall reads fuel b st st',
      write_section reads fuel b st = Ok (true, st') ->
      (exists k', scan_ends reads (currentInstanceIdx st) 0 (tls_list st) k') /\
      (forall a, (a < length (tls_list st))%nat ->
                 exists k, reads k a <> currentInstanceIdx st) /\
      exists n, load (chpl_priv_instances st') (currentInstanceIdx st)
                = Ok (mk_instance None n)) /\
  (forall reads st vec b,
      data_ok st vec -> writeLock st = false ->
      Z.of_nat (length vec) <= b < INT_MAX ->
      (exists fuel st', write_section reads fuel b st = Ok (true, st')) <->
      (exists k', scan_ends reads (currentInstanceIdx st) 0 (tls_list st) k')) /\
  (forall st vec b,
      data_ok st vec -> writeLock st = false ->
      Z.of_nat (length vec) <= b < INT_MAX ->
      (exists fuel st',
          write_section (frozen (tls_list st)) fuel b st = Ok (true, st')) <->
      Forall (fun n => status n <> currentInstanceIdx st) (tls_list st)) /\
  (forall reads fuel b st a st',
      (a < length (tls_list st))%nat ->
      (forall k, reads k a = currentInstanceIdx st) ->
      write_section reads fuel b st <> Ok (true, st')).
Proof.
  assert (Hfree : forall reads fuel b st st',
      write_section reads fuel b st = Ok (true, st') ->
      (exists k', scan_ends reads (currentInstanceIdx st) 0 (tls_list st) k') /\
      (forall a, (a < length (tls_list st))%nat ->
                 exists k, reads k a <> currentInstanceIdx st) /\
      exists n, load (chpl_priv_instances st') (currentInstanceIdx st)
                = Ok (mk_instance None n)).
  { intros reads fuel b st st' H.
    apply write_section_grew in H as [[k Hk] Hfree].
    split; [exists k; by eapply wait_scan|]. split; [|done].
    intros a Ha. apply wait_for_readers_Ok in Hk as [_ Hall].
    destruct (Hall a Ha) as (j & _ & Hj). by exists j. }
  split; [|split; [exact Hfree|split; [|split]]].
  - intros reads inst k l k'. split.
    + intros [fuel H]. by eapply wait_scan.
    + intros H. exists (k' - k - length l)%nat. by apply scan_wait.
  - intros reads st vec b Hd Hw Hb. split.
    + intros (fuel & st' & H). by apply Hfree in H as [H _].
    + intros (k' & Hk). exists k', (grown st vec b).
      rewrite (write_section_grow _ _ _ vec) by done.
      rewrite (scan_wait _ _ _ _ _ _ Hk) by lia. done.
  - intros st vec b Hd Hw Hb. rewrite <- wait_frozen_iff. split.
    + intros (fuel & st' & H). apply write_section_grew in H as [[k Hk] _].
      by exists fuel, k.
    + intros (fuel & k & Hk). exists fuel, (grown st vec b).
      rewrite (write_section_grow _ _ _ vec) by done. by rewrite Hk.
  - intros reads fuel b st a st' Ha Hstuck H.
    destruct (proj1 (proj2 (Hfree _ _ _ _ _ H)) a Ha) as [k Hk]. by apply Hk.
Qed.

Lemma quiescence_before_free_witness :
  write_section reader_leaves 1 1 two_threads = Timeout /\
  exists fuel st', write_section reader_leaves fuel 1 two_threads = Ok (true, st').
Proof.
  split; [vm_compute; reflexivity|].
  destruct quiescence_before_free as (_ & _ & Hiff & _).
  assert (Hd : data_ok two_threads [0%nat]).
  { destruct init_wf as [Hd _]. destruct Hd. by split. }
  apply (Hiff reader_leaves two_threads [0%nat] 1 Hd eq_refl
              ltac:(unfold INT_MAX; cbn; lia)).
  exists 4%nat. cbn [scan_ends two_threads tls_list set_tls_list length].
  exists 0%nat. split; [lia|]. split; [intros i Hi; lia|]. split; [done|].
  exists 3%nat. split; [lia|]. split; [|split; [done|done]].
  intros i Hi. unfold reader_leaves.
  destruct i as [|[|[|i]]]; try lia; done.
Defined.

(** ** C4: a publish is read back *)

(** C4 (counterexample).  The block index of pid 2^41 is 2^31, which the
    [int blockIdx] holds as [INT_MIN].  Converted to [size_t] it is not
    below [len], the write section computes [deltaBlocks <= 0] and the loop
    goes round again: [chpl_newPrivatizedClass] never returns, whatever the
    fuel. *)
Lemma publish_2p41_never_returns :
  blockIdx_of (2 ^ 41) = INT_MIN /\
  ~ exists fuel r,
      chpl_newPrivatizedClass fuel 7 (2 ^ 41) chpl_privatization_init = Ok r.
Proof.
  split; [vm_compute; reflexivity|].
  intros (fuel & r & H). unfold chpl_newPrivatizedClass in H.
  eapply (publish_loop_negative _ [0%nat]); [|exact init_wf|exact H].
  vm_compute. split; [discriminate|reflexivity].
Qed.

(** C4 (amended).  In a single-threaded execution after
    [chpl_privatization_init], for every pid [p] in [0, PID_LIMIT)
    (block index below [INT_MAX]) and every value [v], [publish(p, v)]
    returns, after at most two passes of its loop, and a [get(p)] that
    follows returns [v], whether or not the publish had to grow. *)
Theorem publish_then_get st p v fuel :
  reachable st -> 0 <= p < PID_LIMIT ->
  exists g st1 st2,
    chpl_newPrivatizedClass (S (S fuel)) v p st = Ok (g, st1) /\
    chpl_getPrivatizedClass p st1 = Ok (v, st2).
Proof.
  intros Hr Hp. destruct (reachable_wf _ Hr) as (vec & Hwf).
  pose proof (pid_limit_div _ Hp) as Hdiv.
  assert (Hb : blockIdx_of p = p / CHPL_PRIVATIZATION_BLOCK_SIZE).
  { apply blockIdx_of_exact; lia. }
  pose proof (idx_of_bound p (proj1 Hp)) as Hi.
  destruct (publish_loop_total st vec v p (blockIdx_of p) fuel 0%nat Hwf)
    as (g & st1 & Hrun); [lia|done|].
  pose proof Hrun as Hrun'.
  apply (publish_loop_inv _ vec) in Hrun'
    as (_ & _ & vec' & Hwf' & _ & _ & Hsl); [|done|apply blockIdx_of_range].
  destruct (get_value st1 vec' p v Hwf') as (st2 & Hget).
  { rewrite Hsl. by rewrite decide_True. }
  by exists g, st1, st2.
Qed.

Lemma publish_then_get_witness :
  reachable chpl_privatization_init /\ 0 <= 5000 < PID_LIMIT /\
  exists g st1 st2,
    chpl_newPrivatizedClass 2 7 5000 chpl_privatization_init = Ok (g, st1) /\
    chpl_getPrivatizedClass 5000 st1 = Ok (7, st2).
Proof.
  assert (Hr : reachable chpl_privatization_init) by (by exists 0%nat, []).
  assert (Hp : 0 <= 5000 < PID_LIMIT) by (by vm_compute).
  split; [done|]. split; [done|].
  exact (publish_then_get chpl_privatization_init 5000 7 0 Hr Hp).
Defined.

(** ** C5: a publish leaves the other pids alone *)

(** C5 (counterexample).  Pid 2^42 has block index 2^32, narrowed to 0,
    and slot index 0: publishing there overwrites the slot of pid 0, which
    read null before.  And on the initial state pid 2000 lies past the one
    block there is: the [get] before the publish is out of bounds. *)
Lemma publish_2p42_overwrites_pid_0 :
  returned (chpl_getPrivatizedClass 0 chpl_privatization_init) = Ok NULL /\
  (let* st := run 2 [Publish 7 (2 ^ 42)] chpl_privatization_init in
   returned (chpl_getPrivatizedClass 0 st)) = Ok 7 /\
  chpl_getPrivatizedClass 2000 chpl_privatization_init = Fault.
Proof. repeat split; vm_compute; reflexivity. Qed.

(** C5 (amended).  For distinct pids [a] in [0, PID_LIMIT) and [b >= 0]
    with [b] inside the current instance ([b / BLOCK_SIZE < len]),
    [publish(a, x)] returns and [get(b)] returns the same value before and
    after it, also when the publish grows the registry. *)
Theorem publish_frame st a b x fuel :
  reachable st -> 0 <= a < PID_LIMIT ->
  0 <= b -> b / CHPL_PRIVATIZATION_BLOCK_SIZE < len (cur_inst st) ->
  a <> b ->
  exists g st1 y st2 st3,
    chpl_newPrivatizedClass (S (S fuel)) x a st = Ok (g, st1) /\
    chpl_getPrivatizedClass b st = Ok (y, st2) /\
    chpl_getPrivatizedClass b st1 = Ok (y, st3).
Proof.
  intros Hr Ha Hb Hin Hne. destruct (reachable_wf _ Hr) as (vec & Hwf).
  rewrite (wf_len _ _ Hwf) in Hin.
  pose proof (ok_len _ _ (proj1 Hwf)) as Hl.
  pose proof (pid_limit_div _ Ha) as Hdiv.
  destruct (get_inside _ _ b Hwf Hb Hin) as (Hbb & Hbr & Hir & y & Hy).
  pose proof (idx_of_bound a (proj1 Ha)) as Hi.
  assert (Hba : blockIdx_of a = a / CHPL_PRIVATIZATION_BLOCK_SIZE).
  { apply blockIdx_of_exact; lia. }
  destruct (publish_loop_total st vec x a (blockIdx_of a) fuel 0%nat Hwf)
    as (g & st1 & Hrun); [lia|done|].
  pose proof Hrun as Hrun'.
  apply (publish_loop_inv _ vec) in Hrun'
    as (_ & _ & vec' & Hwf' & _ & _ & Hsl); [|done|apply blockIdx_of_range].
  destruct (get_value st vec b y Hwf Hy) as (st2 & Hget).
  destruct (get_value st1 vec' b y Hwf') as (st3 & Hget').
  { rewrite Hsl. rewrite decide_False.
    - unfold grown_slot.
      by destruct (Z.ltb_spec (blockIdx_of b) (Z.of_nat (length vec))); [|lia].
    - intros [E1 E2]. apply Hne. symmetry. apply slot_injective; try done; lia. }
  by exists g, st1, y, st2, st3.
Qed.

Lemma publish_frame_witness :
  reachable chpl_privatization_init /\
  exists g st1 y st2 st3,
    chpl_newPrivatizedClass 2 7 5000 chpl_privatization_init = Ok (g, st1) /\
    chpl_getPrivatizedClass 1 chpl_privatization_init = Ok (y, st2) /\
    chpl_getPrivatizedClass 1 st1 = Ok (y, st3).
Proof.
  assert (Hr : reachable chpl_privatization_init) by (by exists 0%nat, []).
  split; [done|].
  apply (publish_frame chpl_privatization_init 5000 1 7 0 Hr).
  - by vm_compute.
  - lia.
  - by vm_compute.
  - discriminate.
Defined.

(** ** C6: the capacity never shrinks *)

Lemma write_section_true_len reads fuel st vec b st' :
  data_ok st vec -> writeLock st = false -> INT_MIN <= b <= INT_MAX ->
  write_section reads fuel b st = Ok (true, st') ->
  Z.of_nat (length vec) <= b < INT_MAX /\ st' = grown st vec b.
Proof.
  intros Hd Hw Hb H. pose proof (ok_len _ _ Hd) as Hl.
  destruct (Z_lt_le_dec b 0) as [Hneg|Hpos].
  { destruct (write_section_negative reads fuel st vec b Hd Hw) as [E|E];
      [lia| |]; rewrite E in H; discriminate. }
  destruct (Z.eq_dec b INT_MAX) as [->|Hmax].
  { by rewrite (write_section_max _ _ _ vec) in H. }
  destruct (Z_lt_le_dec b (Z.of_nat (length vec))) as [Hin|Hout].
  { rewrite (write_section_enough _ _ _ vec) in H by (done || lia). discriminate. }
  split; [lia|].
  rewrite (write_section_grow _ _ _ vec) in H by (done || lia).
  apply bind_Ok in H as (k & _ & H). by injection H as <-.
Qed.

(** C6.  Along any sequence of publish, get, clear and capacity operations
    that a single thread runs from a reachable state, the [len] of the
    current instance and the value of [capacity()] do not decrease; and a
    write section that grows the registry leaves a [len] strictly larger
    than the one it found. *)
Theorem capacity_monotone fuel ops st1 st2 :
  reachable st1 -> run fuel ops st1 = Ok st2 ->
  len (cur_inst st1) <= len (cur_inst st2) /\
  (exists c1 c2 s1 s2,
      chpl_numPrivatizedClasses st1 = Ok (c1, s1) /\
      chpl_numPrivatizedClasses st2 = Ok (c2, s2) /\ c1 <= c2) /\
  forall reads fuel' b st3,
    INT_MIN <= b <= INT_MAX ->
    write_section reads fuel' b st1 = Ok (true, st3) ->
    len (cur_inst st1) < len (cur_inst st3).
Proof.
  intros Hr Hrun. destruct (reachable_wf _ Hr) as (vec & Hwf).
  destruct (run_wf _ _ _ _ _ Hwf Hrun) as (vec' & Hwf' & Hle).
  rewrite (wf_len _ _ Hwf), (wf_len _ _ Hwf').
  split; [lia|]. split.
  - destruct (capacity_eq _ _ Hwf) as (s1 & _ & _ & E1).
    destruct (capacity_eq _ _ Hwf') as (s2 & _ & _ & E2).
    eexists _, _, s1, s2. split; [exact E1|]. split; [exact E2|].
    unfold CHPL_PRIVATIZATION_BLOCK_SIZE. lia.
  - intros reads fuel' b st3 Hb H.
    apply (write_section_true_len _ _ _ vec) in H as [Hb' ->];
      [|apply Hwf|apply Hwf|done].
    pose proof (grown_data_ok st1 vec b (proj1 Hwf) Hb') as Hg.
    rewrite (ok_cur _ _ Hg). cbn [len]. rewrite length_app, length_seq. lia.
Qed.

Lemma capacity_monotone_witness :
  reachable chpl_privatization_init /\
  run 2 [Publish 7 5000; Clear 3] chpl_privatization_init = Ok sparse_state /\
  len (cur_inst chpl_privatization_init) <= len (cur_inst sparse_state).
Proof.
  assert (Hr : reachable chpl_privatization_init) by (by exists 0%nat, []).
  assert (Hrun : run 2 [Publish 7 5000; Clear 3] chpl_privatization_init
                 = Ok sparse_state) by (vm_compute; reflexivity).
  split; [done|]. split; [done|].
  exact (proj1 (capacity_monotone 2 _ _ _ Hr Hrun)).
Defined.

(** ** C7: growing is idempotent *)

(** The loop among other writers is the loop of the thread alone when the
    others change nothing. *)
Lemma publish_loop_among_alone fuel v pid b : forall g st,
  publish_loop_among (fun st => st) fuel v pid b g st
  = publish_loop fuel v pid b g st.
Proof.
  induction fuel as [|fuel IH]; intros g st; [done|].
  cbn [publish_loop_among publish_loop].
  destruct (acquireRead st) as [[rc st1]| |]; cbn [bind]; try done.
  destruct (load (chpl_priv_instances st1) rc) as [inst| |]; cbn [bind]; try done.
  destruct (to_size_t b >=? len inst); [|done].
  destruct (releaseRead st1) as [st2| |]; cbn [bind]; try done.
  destruct (write_section (frozen (tls_list st2)) fuel b st2)
    as [[grew st3]| |]; cbn [bind]; [apply IH|done|done].
Qed.

(** A pass that finds the block index inside the table does not get to
    the lock: the other writers make no difference to it. *)
Lemma publish_loop_among_store others st vec v pid b fuel g :
  wf st vec -> 0 <= b < Z.of_nat (length vec) ->
  publish_loop_among others (S fuel) v pid b g st
  = publish_loop (S fuel) v pid b g st.
Proof.
  intros Hwf Hb.
  destruct (enter_read _ _ Hwf) as (st1 & Ha & Hs & Hr & Hd1 & Hld).
  pose proof (ok_len _ _ (proj1 Hwf)) as Hl.
  cbn [publish_loop_among publish_loop]. rewrite Ha. cbn [bind].
  rewrite Hld. cbn [bind len].
  rewrite geb_size_t by (unfold INT_MIN, INT_MAX in *; lia).
  destruct (Z.leb_spec 0 b); [|lia].
  destruct (Z.ltb_spec b (Z.of_nat (length vec))); [|lia]. done.
Qed.

(** A pass that finds the block index outside the table: the write section
    runs on what the other writers have made of the state. *)
Lemma enter_write_among st vec v pid b :
  wf st vec -> INT_MIN <= b <= INT_MAX ->
  ~ 0 <= b < Z.of_nat (length vec) ->
  exists st2, wf st2 vec /\ same_data st st2 /\
    forall others fuel g,
      publish_loop_among others (S fuel) v pid b g st =
      let* (grew, st3) :=
        write_section (frozen (tls_list (others st2))) fuel b (others st2) in
      publish_loop_among others fuel v pid b (if grew : bool then S g else g) st3.
Proof.
  intros Hwf Hb Hout.
  destruct (enter_read _ _ Hwf) as (st1 & Ha & Hs & Hr & Hd1 & Hld).
  destruct (releaseRead_reading st1 Hr) as (st2 & Hrel & Hs2 & Hi2).
  pose proof (same_data_trans _ _ _ Hs Hs2) as Hs02.
  exists st2. split; [by eapply wf_same|]. split; [done|].
  intros others fuel g. cbn [publish_loop_among]. rewrite Ha. cbn [bind].
  rewrite Hld. cbn [bind len].
  destruct Hwf as (Hd & Hi & Hw). pose proof (ok_len _ _ Hd) as Hl.
  rewrite geb_size_t by done.
  destruct (Z.leb_spec 0 b), (Z.ltb_spec b (Z.of_nat (length vec)));
    cbn [andb negb]; try lia; by rewrite Hrel.
Qed.

(** C7.  In a reachable state, a write section entered for a block index
    below the [len] of the current instance releases the lock and reports
    that it did not grow, leaving the state as it found it.  The loop of
    the publish then goes round again: when the publish of a pid [p] finds
    its block outside the table, and the writers that hold the lock before
    it leave a table that has the block, the publish takes the lock, grows
    nothing, leaves both instances as those writers left them, and on its
    next pass stores the value, which a [get] of [p] then returns; it
    counts no pass through the growing branch.  With no other writer the
    loop is that of the thread alone, where, from the initial one-block
    state, [publish(BLOCK_SIZE, v)] passes through the growing branch
    exactly once, and a following [publish(BLOCK_SIZE - 1, w)] not at
    all. *)
Theorem growth_idempotent :
  (forall st reads fuel b,
      reachable st -> 0 <= b < len (cur_inst st) ->
      write_section reads fuel b st = Ok (false, st)) /\
  (forall st vec vec' others v p fuel,
      wf st vec -> 0 <= p < PID_LIMIT ->
      Z.of_nat (length vec) <= p / CHPL_PRIVATIZATION_BLOCK_SIZE
        < Z.of_nat (length vec') ->
      (forall s, same_data st s -> tls_idle s -> wf (others s) vec') ->
      exists s st' st'',
        same_data st s /\
        write_section (frozen (tls_list (others s))) fuel
                      (p / CHPL_PRIVATIZATION_BLOCK_SIZE) (others s)
          = Ok (false, others s) /\
        publish_loop_among others (S (S fuel)) v p
                           (to_int (Z.quot p CHPL_PRIVATIZATION_BLOCK_SIZE)) 0 st
          = Ok (0%nat, st') /\
        chpl_priv_instances st' = chpl_priv_instances (others s) /\
        currentInstanceIdx st' = currentInstanceIdx (others s) /\
        chpl_getPrivatizedClass p st' = Ok (v, st'')) /\
  (forall fuel v pid b g st,
      publish_loop_among (fun st => st) fuel v pid b g st
      = publish_loop fuel v pid b g st) /\
  (forall v w fuel,
      exists st1 st2,
        chpl_newPrivatizedClass (S (S fuel)) v CHPL_PRIVATIZATION_BLOCK_SIZE
          chpl_privatization_init = Ok (1%nat, st1) /\
        chpl_newPrivatizedClass (S (S fuel)) w (CHPL_PRIVATIZATION_BLOCK_SIZE - 1)
          st1 = Ok (0%nat, st2)).
Proof.
  split; [|split; [|split]].
  - intros st reads fuel b Hr Hb. destruct (reachable_wf _ Hr) as (vec & Hwf).
    rewrite (wf_len _ _ Hwf) in Hb.
    apply (write_section_enough _ _ _ vec); [apply Hwf|apply Hwf|done].
  - intros st vec vec' others v p fuel Hwf Hp Hb Hoth.
    destruct (pid_limit_div p Hp) as [Hq0 Hq1].
    pose proof (blockIdx_of_exact p ltac:(lia) ltac:(lia)) as Hbe.
    pose proof (idx_of_bound p ltac:(lia)) as Hi.
    fold (blockIdx_of p). rewrite Hbe.
    set (b := p / CHPL_PRIVATIZATION_BLOCK_SIZE) in *.
    destruct (enter_write_among st vec v p b Hwf) as (s & Hwfs & Hs & Heq).
    { unfold INT_MIN, INT_MAX in *. lia. }
    { lia. }
    pose proof (Hoth s Hs (proj1 (proj2 Hwfs))) as Hwf'.
    assert (Hsec : forall reads n,
               write_section reads n b (others s) = Ok (false, others s)).
    { intros reads n.
      apply (write_section_enough _ _ _ vec'); [apply Hwf'|apply Hwf'|lia]. }
    destruct (publish_loop_store (others s) vec' v p b Hwf' ltac:(lia) Hi)
      as (st' & Hwf'' & _ & Hsl & Hrun).
    destruct (publish_loop_store_frame (S fuel) v p b 0%nat (others s) vec' 0%nat
                st' Hwf' ltac:(lia) (Hrun fuel 0%nat)) as [Hin Hcu].
    destruct (get_value st' vec' p v Hwf'') as (st'' & Hget).
    { rewrite Hsl, Hbe. fold b. by rewrite decide_True. }
    exists s, st', st''. split; [done|]. split; [apply Hsec|].
    split; [|done].
    rewrite Heq, Hsec. cbn [bind].
    rewrite (publish_loop_among_store _ _ vec') by (done || lia).
    apply Hrun.
  - intros fuel v pid b g st. apply publish_loop_among_alone.
  - intros v w fuel. unfold chpl_newPrivatizedClass.
    change (to_int (CHPL_PRIVATIZATION_BLOCK_SIZE ÷ CHPL_PRIVATIZATION_BLOCK_SIZE))
      with 1.
    change (to_int ((CHPL_PRIVATIZATION_BLOCK_SIZE - 1) ÷ CHPL_PRIVATIZATION_BLOCK_SIZE))
      with 0.
    destruct (publish_loop_total chpl_privatization_init [0%nat] v
                CHPL_PRIVATIZATION_BLOCK_SIZE 1 fuel 0%nat init_wf)
      as (g & st1 & Hrun); [by vm_compute|by vm_compute|].
    pose proof Hrun as Hrun'.
    apply (publish_loop_inv _ [0%nat]) in Hrun'
      as (_ & _ & vec' & Hwf' & Hlen & -> & _); [|exact init_wf|by vm_compute].
    cbn [length] in Hlen. change (1 <? Z.of_nat 1) with false in Hrun.
    destruct (publish_loop_total st1 vec' w
                (CHPL_PRIVATIZATION_BLOCK_SIZE - 1) 0 fuel 0%nat Hwf')
      as (g2 & st2 & Hrun2); [by vm_compute|by vm_compute|].
    pose proof Hrun2 as Hrun2'.
    apply (publish_loop_inv _ vec') in Hrun2'
      as (_ & _ & _ & _ & _ & -> & _); [|done|by vm_compute].
    destruct (Z.ltb_spec 0 (Z.of_nat (length vec'))); [|lia].
    by exists st1, st2.
Qed.

(** Another writer publishes into block 2 while this thread, which is
    publishing pid 1024 into the initial one-block registry, waits for the
    lock. *)
Lemma growth_idempotent_witness :
  exists s st' st'',
    write_section (frozen (tls_list (grown s [0%nat] 2))) 0 1 (grown s [0%nat] 2)
      = Ok (false, grown s [0%nat] 2) /\
    publish_loop_among (fun s => grown s [0%nat] 2) 2 7 1024 1 0
                       chpl_privatization_init = Ok (0%nat, st') /\
    len (cur_inst st') = 3 /\
    chpl_getPrivatizedClass 1024 st' = Ok (7, st'').
Proof.
  destruct (proj1 (proj2 growth_idempotent)
              chpl_privatization_init [0%nat] [0%nat; 1%nat; 2%nat]
              (fun s => grown s [0%nat] 2) 7 1024 0%nat init_wf)
    as (s & st' & st'' & Hs & Hsec & Hrun & Hin & Hcu & Hget).
  - vm_compute. split; [discriminate|reflexivity].
  - vm_compute. split; [discriminate|reflexivity].
  - intros s Hs Hi. destruct init_wf as (Hd & _ & _).
    pose proof (data_ok_same _ _ _ Hs Hd) as Hd'.
    pose proof (grown_data_ok s [0%nat] 2 Hd' ltac:(by vm_compute)) as Hg.
    destruct Hs as (Hm & _). rewrite Hm in Hg.
    split; [exact Hg|]. split; [exact Hi|done].
  - exists s, st', st''. split; [exact Hsec|]. split; [exact Hrun|].
    split; [|exact Hget].
    destruct Hs as (_ & Hi0 & Hc0 & _).
    unfold cur_inst. rewrite Hin, Hcu. 
    unfold grown. cbn [chpl_priv_instances currentInstanceIdx].
    rewrite Hc0, Hi0. vm_compute. reflexivity.
Defined.

(** ** C8: the decomposition of a pid *)

(** C8 (counterexample).  At pid 2^42 the quotient by the block size is
    2^32; the [int blockIdx] of the three operations holds 0 instead, and a
    [get] of that pid on the initial state reads a slot of block 0. *)
Lemma blockIdx_narrowed_at_2p42 :
  2 ^ 42 / CHPL_PRIVATIZATION_BLOCK_SIZE = 4294967296 /\
  to_int (Z.quot (2 ^ 42) CHPL_PRIVATIZATION_BLOCK_SIZE) = 0 /\
  returned (chpl_getPrivatizedClass (2 ^ 42) chpl_privatization_init) = Ok NULL /\
  (let* st := run 1 [Publish 7 0] chpl_privatization_init in
   returned (chpl_getPrivatizedClass (2 ^ 42) st)) = Ok 7.
Proof. repeat split; vm_compute; reflexivity. Qed.

(** C8 (amended).  For every pid with [0 <= pid] and
    [pid / BLOCK_SIZE <= INT_MAX] (that is, [pid < 2^41]), publish, get and
    clear address block [pid / BLOCK_SIZE] and slot [pid mod BLOCK_SIZE] of
    the current instance, [BLOCK_SIZE] being 1024.  In a reachable state, a
    [get] returns what that slot holds, and leaves defined behaviour when
    the slot is not there; a [clear] that returns has stored [NULL] into
    that slot and left every other slot as it was, and it returns when the
    block is in the table; a publish that returns has stored its value
    into that slot and left every other slot of the table it found as it
    was, and it returns, two passes of its loop being enough, when the
    block index is below [INT_MAX]. *)
Theorem pid_decomposition_exact st pid :
  reachable st ->
  0 <= pid -> pid / CHPL_PRIVATIZATION_BLOCK_SIZE <= INT_MAX ->
  CHPL_PRIVATIZATION_BLOCK_SIZE = 1024 /\
  returned (chpl_getPrivatizedClass pid st)
  = read_slot st (currentInstanceIdx st)
              (pid / CHPL_PRIVATIZATION_BLOCK_SIZE)
              (pid mod CHPL_PRIVATIZATION_BLOCK_SIZE) /\
  (forall st',
      chpl_clearPrivatizedClass pid st = Ok st' ->
      read_slot st' (currentInstanceIdx st')
                (pid / CHPL_PRIVATIZATION_BLOCK_SIZE)
                (pid mod CHPL_PRIVATIZATION_BLOCK_SIZE) = Ok NULL /\
      forall b idx,
        ~ (b = pid / CHPL_PRIVATIZATION_BLOCK_SIZE /\
           idx = pid mod CHPL_PRIVATIZATION_BLOCK_SIZE) ->
        read_slot st' (currentInstanceIdx st') b idx
        = read_slot st (currentInstanceIdx st) b idx) /\
  (pid / CHPL_PRIVATIZATION_BLOCK_SIZE < len (cur_inst st) ->
   exists st', chpl_clearPrivatizedClass pid st = Ok st') /\
  (forall v fuel g st',
      chpl_newPrivatizedClass fuel v pid st = Ok (g, st') ->
      read_slot st' (currentInstanceIdx st')
                (pid / CHPL_PRIVATIZATION_BLOCK_SIZE)
                (pid mod CHPL_PRIVATIZATION_BLOCK_SIZE) = Ok v /\
      forall b idx,
        ~ (b = pid / CHPL_PRIVATIZATION_BLOCK_SIZE /\
           idx = pid mod CHPL_PRIVATIZATION_BLOCK_SIZE) ->
        b < len (cur_inst st) ->
        read_slot st' (currentInstanceIdx st') b idx
        = read_slot st (currentInstanceIdx st) b idx) /\
  (pid / CHPL_PRIVATIZATION_BLOCK_SIZE < INT_MAX ->
   forall v fuel, exists g st',
     chpl_newPrivatizedClass (S (S fuel)) v pid st = Ok (g, st')).
Proof.
  intros Hr H0 H1. destruct (reachable_wf _ Hr) as (vec & Hwf).
  pose proof (blockIdx_of_exact pid H0 H1) as Hb.
  pose proof (idx_of_exact pid H0) as Hi.
  pose proof (idx_of_bound pid H0) as Hib.
  assert (Hq0 : 0 <= pid / CHPL_PRIVATIZATION_BLOCK_SIZE).
  { apply Z.div_pos; [done|]. by vm_compute. }
  rewrite (wf_len _ _ Hwf).
  set (q := pid / CHPL_PRIVATIZATION_BLOCK_SIZE) in *.
  set (r := pid mod CHPL_PRIVATIZATION_BLOCK_SIZE) in *.
  split; [done|]. split; [|split; [|split; [|split]]].
  - destruct (get_eq _ _ Hwf) as (st' & _ & _ & Hget).
    rewrite Hget, Hb, Hi, (read_slot_cur _ vec) by apply Hwf.
    by destruct (slot_of vec (mem st) q r).
  - intros st' Hc.
    destruct (decide (0 <= blockIdx_of pid < Z.of_nat (length vec))) as [Hin|Hout].
    + destruct (clear_inside st vec pid Hwf Hin Hib) as (st1 & Hc1 & Hwf1 & Hsl).
      rewrite Hc1 in Hc. injection Hc as <-.
      rewrite Hb, Hi in Hsl. split.
      * rewrite (read_slot_cur _ vec) by apply Hwf1.
        rewrite Hsl. by rewrite decide_True.
      * intros b idx Hne.
        rewrite (read_slot_cur st1 vec), (read_slot_cur st vec)
          by (apply Hwf1 || apply Hwf).
        rewrite Hsl. by rewrite decide_False.
    + rewrite (clear_outside _ vec) in Hc; [done|done|]. intros [Hin _]. done.
  - intros Hlt.
    destruct (clear_inside st vec pid Hwf) as (st1 & Hc1 & _); [lia|done|].
    by exists st1.
  - intros v fuel g st' H. unfold chpl_newPrivatizedClass in H.
    fold (blockIdx_of pid) in H. rewrite Hb in H.
    apply (publish_loop_inv _ vec) in H
      as (_ & _ & vec' & Hwf' & _ & _ & Hsl);
      [|done|unfold INT_MIN, INT_MAX in *; lia].
    rewrite Hi in Hsl. split.
    + rewrite (read_slot_cur _ vec') by apply Hwf'.
      rewrite Hsl. by rewrite decide_True.
    + intros b idx Hne Hlt.
      rewrite (read_slot_cur st' vec'), (read_slot_cur st vec)
        by (apply Hwf' || apply Hwf).
      rewrite Hsl. rewrite decide_False by done.
      unfold grown_slot. by destruct (Z.ltb_spec b (Z.of_nat (length vec))); [|lia].
  - intros Hlt v fuel. unfold chpl_newPrivatizedClass.
    fold (blockIdx_of pid). rewrite Hb.
    apply (publish_loop_total _ vec); [done|lia|done].
Qed.

Lemma pid_decomposition_exact_witness :
  exists g st',
    chpl_newPrivatizedClass 2 7 5000 chpl_privatization_init = Ok (g, st') /\
    read_slot st' (currentInstanceIdx st') 4 904 = Ok 7 /\
    returned (chpl_getPrivatizedClass 5000 chpl_privatization_init)
    = read_slot chpl_privatization_init 0 4 904.
Proof.
  assert (Hr : reachable chpl_privatization_init) by (by exists 0%nat, []).
  assert (H0 : 0 <= 5000) by lia.
  assert (H1 : 5000 / CHPL_PRIVATIZATION_BLOCK_SIZE <= INT_MAX) by (by vm_compute).
  destruct (pid_decomposition_exact chpl_privatization_init 5000 Hr H0 H1)
    as (_ & Hget & _ & _ & Hpub & Htot).
  destruct (Htot ltac:(by vm_compute) 7 0%nat) as (g & st' & Hrun).
  exists g, st'. split; [exact Hrun|].
  split; [exact (proj1 (Hpub 7 2%nat g st' Hrun))|exact Hget].
Defined.

(** ** C9: clearing *)

(** C9 (counterexample).  On the initial one-block state, [clear] of pid
    1024 stores through entry 1 of a blocks vector that has one entry: the
    store is out of bounds, and no state follows in which [get(1024)] could
    return null. *)
Lemma clear_beyond_len_out_of_bounds :
  chpl_clearPrivatizedClass 1024 chpl_privatization_init = Fault.
Proof. vm_compute. reflexivity. Qed.

(** C9 (amended).  In a reachable state, for every pid [p >= 0] inside the
    current instance ([p / BLOCK_SIZE < len]), [clear(p)] returns and a
    [get(p)] that follows returns null; every other pid inside the current
    instance reads the same before and after; and when [p] read null
    before (as a pid that was never published does), every pid inside the
    current instance reads the same before and after. *)
Theorem clear_then_get st p :
  reachable st ->
  0 <= p -> p / CHPL_PRIVATIZATION_BLOCK_SIZE < len (cur_inst st) ->
  exists st1 st2,
    chpl_clearPrivatizedClass p st = Ok st1 /\
    chpl_getPrivatizedClass p st1 = Ok (NULL, st2) /\
    forall q,
      0 <= q -> q / CHPL_PRIVATIZATION_BLOCK_SIZE < len (cur_inst st) ->
      q <> p \/ returned (chpl_getPrivatizedClass p st) = Ok NULL ->
      exists y s s',
        chpl_getPrivatizedClass q st = Ok (y, s) /\
        chpl_getPrivatizedClass q st1 = Ok (y, s').
Proof.
  intros Hr Hp Hin. destruct (reachable_wf _ Hr) as (vec & Hwf).
  rewrite (wf_len _ _ Hwf) in *.
  pose proof (ok_len _ _ (proj1 Hwf)) as Hl.
  destruct (get_inside _ _ p Hwf Hp Hin) as (Hbp & Hbr & Hir & yp & Hyp).
  destruct (clear_inside _ _ p Hwf Hbr Hir) as (st1 & Hclr & Hwf1 & Hsl).
  destruct (get_value st1 vec p NULL Hwf1) as (st2 & Hget).
  { rewrite Hsl. by rewrite decide_True. }
  exists st1, st2. split; [done|]. split; [done|].
  intros q Hq Hqin Hcase.
  destruct (get_inside _ _ q Hwf Hq Hqin) as (Hbq & Hbqr & Hiqr & y & Hy).
  destruct (get_value st vec q y Hwf Hy) as (s & Hgq).
  destruct (decide (q = p)) as [->|Hne].
  - destruct Hcase as [Hc|Hc]; [done|].
    rewrite Hgq in Hc. cbn in Hc. injection Hc as ->.
    by exists NULL, s, st2.
  - destruct (get_value st1 vec q y Hwf1) as (s' & Hgq').
    { rewrite Hsl. rewrite decide_False; [done|].
      intros [E1 E2]. apply Hne. apply slot_injective; try done; lia. }
    by exists y, s, s'.
Qed.

Lemma clear_then_get_witness :
  reachable sparse_state /\
  exists st1 st2,
    chpl_clearPrivatizedClass 5000 sparse_state = Ok st1 /\
    chpl_getPrivatizedClass 5000 st1 = Ok (NULL, st2).
Proof.
  assert (Hr : reachable sparse_state).
  { exists 2%nat, [Publish 7 5000; Clear 3]. vm_compute. reflexivity. }
  split; [done|].
  destruct (clear_then_get sparse_state 5000 Hr) as (st1 & st2 & H1 & H2 & _).
  - lia.
  - by vm_compute.
  - by exists st1, st2.
Defined.

(** ** C10: a grow is minimal *)

(** C10 (counterexample).  Pid 2^42 + 1024 has block index 2^32 + 1,
    narrowed to 1: from the initial state the publish grows the registry to
    two blocks, a capacity of 2048, not of (2^32 + 2) * 1024. *)
Lemma grow_at_2p42_plus_1024 :
  (2 ^ 42 + 1024) / CHPL_PRIVATIZATION_BLOCK_SIZE + 1 = 4294967298 /\
  returned (chpl_newPrivatizedClass 2 7 (2 ^ 42 + 1024) chpl_privatization_init)
  = Ok 1%nat /\
  (let* st := run 2 [Publish 7 (2 ^ 42 + 1024)] chpl_privatization_init in
   returned (chpl_numPrivatizedClasses st)) = Ok 2048.
Proof. repeat split; vm_compute; reflexivity. Qed.

(** C10 (amended).  In a reachable state, when the block of a pid [p] in
    [0, PID_LIMIT) is not yet in the current instance
    ([len <= p / BLOCK_SIZE]), [publish(p, v)] grows the registry once,
    the new [len] is exactly [p / BLOCK_SIZE + 1] and [capacity()] then
    returns [(p / BLOCK_SIZE + 1) * BLOCK_SIZE]. *)
Theorem grow_is_minimal st p v fuel :
  reachable st -> 0 <= p < PID_LIMIT ->
  len (cur_inst st) <= p / CHPL_PRIVATIZATION_BLOCK_SIZE ->
  exists st1 st2,
    chpl_newPrivatizedClass (S (S fuel)) v p st = Ok (1%nat, st1) /\
    len (cur_inst st1) = p / CHPL_PRIVATIZATION_BLOCK_SIZE + 1 /\
    chpl_numPrivatizedClasses st1 =
    Ok ((p / CHPL_PRIVATIZATION_BLOCK_SIZE + 1) * CHPL_PRIVATIZATION_BLOCK_SIZE,
        st2).
Proof.
  intros Hr Hp Hout. destruct (reachable_wf _ Hr) as (vec & Hwf).
  rewrite (wf_len _ _ Hwf) in Hout.
  pose proof (ok_len _ _ (proj1 Hwf)) as Hl.
  pose proof (pid_limit_div _ Hp) as Hdiv.
  assert (Hb : blockIdx_of p = p / CHPL_PRIVATIZATION_BLOCK_SIZE).
  { apply blockIdx_of_exact; lia. }
  pose proof (idx_of_bound p (proj1 Hp)) as Hi.
  destruct (publish_loop_total st vec v p (blockIdx_of p) fuel 0%nat Hwf)
    as (g & st1 & Hrun); [lia|done|].
  pose proof Hrun as Hrun'.
  apply (publish_loop_inv _ vec) in Hrun'
    as (_ & _ & vec' & Hwf' & Hlen & -> & _); [|done|apply blockIdx_of_range].
  destruct (Z.ltb_spec (blockIdx_of p) (Z.of_nat (length vec))); [lia|].
  destruct (capacity_eq _ _ Hwf') as (st2 & _ & _ & Hcap).
  exists st1, st2. split; [done|].
  rewrite (wf_len _ _ Hwf'), Hcap, Hlen, Hb.
  by rewrite Z.max_r by lia.
Qed.

Lemma grow_is_minimal_witness :
  reachable chpl_privatization_init /\
  exists st1 st2,
    chpl_newPrivatizedClass 2 7 5000 chpl_privatization_init = Ok (1%nat, st1) /\
    len (cur_inst st1) = 5 /\
    chpl_numPrivatizedClasses st1 = Ok (5120, st2).
Proof.
  assert (Hr : reachable chpl_privatization_init) by (by exists 0%nat, []).
  split; [done|].
  apply (grow_is_minimal chpl_privatization_init 5000 7 0 Hr).
  - by vm_compute.
  - by vm_compute.
Defined.

(** * Further properties of the code *)

(** ** The roster *)

Lemma node_at_cons n l b :
  (b < length l)%nat -> node_at (n :: l) b = node_at l b.
Proof.
  intros Hb. unfold node_at, node_index. cbn [length].
  destruct (Nat.ltb_spec b (length l)); [|lia].
  destruct (Nat.ltb_spec b (S (length l))); [|lia].
  by replace (S (length l) - 1 - b)%nat with (S (length l - 1 - b)) by lia.
Qed.

Lemma node_at_head n l : node_at (n :: l) (length l) = Some n.
Proof.
  unfold node_at, node_index. cbn [length].
  destruct (Nat.ltb_spec (length l) (S (length l))); [|lia].
  by replace (S (length l) - 1 - length l)%nat with 0%nat by lia.
Qed.

Lemma init_tls_walk_keeps lost l : forall l' r,
  init_tls_walk lost l = (l', r) ->
  length l' = length l /\
  forall i n, l !! i = Some n ->
    exists n', l' !! i = Some n' /\ status n' = status n /\
               (in_use n = true -> in_use n' = true).
Proof.
  induction l as [|c l IH]; intros l' r; cbn [init_tls_walk].
  - intros [= <- <-]. split; [done|]. intros i n Hi. by destruct i.
  - assert (Hstep : forall l1 c',
        length l1 = length l ->
        (forall i n, l !! i = Some n ->
           exists n', l1 !! i = Some n' /\ status n' = status n /\
                      (in_use n = true -> in_use n' = true)) ->
        status c' = status c -> (in_use c = true -> in_use c' = true) ->
        length (c' :: l1) = length (c :: l) /\
        forall i n, (c :: l) !! i = Some n ->
          exists n', (c' :: l1) !! i = Some n' /\ status n' = status n /\
                     (in_use n = true -> in_use n' = true)).
    { intros l1 c' Hl1 Hk Hs Hu. split; [cbn; lia|].
      intros [|i] n Hi; cbn in Hi.
      - injection Hi as <-. by exists c'.
      - by apply Hk. }
    destruct (in_use c) eqn:Hc.
    + destruct (init_tls_walk lost l) as [l1 r1] eqn:Hw. intros [= <- <-].
      destruct (IH _ _ eq_refl) as [Hl1 Hk]. by apply Hstep.
    + destruct (lost (length l)).
      * intros [= <- <-]. apply Hstep; try done.
        intros i n Hi. by exists n.
      * destruct (init_tls_walk lost l) as [l1 r1] eqn:Hw. intros [= <- <-].
        destruct (IH _ _ eq_refl) as [Hl1 Hk]. by apply Hstep.
Qed.

(** X1.  [init_tls] binds the thread either to a node of the roster or to
    a new one.  It binds a node of the roster only if that node was free
    when the thread read its flag and the thread's compare-and-swap on it
    then failed, another thread having taken the node in between; the
    roster keeps its length.  Otherwise the roster is one node longer and
    the thread is bound to the new head, whose fields are those
    [chpl_calloc] and the store of [-1] leave: [in_use] false, status
    255. *)
Theorem init_tls_binds_lost_or_new lost st :
  (exists a n,
      reader_tls (init_tls lost st) = Some a /\ lost a = true /\
      node_at (tls_list st) a = Some n /\ in_use n = false /\
      length (tls_list (init_tls lost st)) = length (tls_list st)) \/
  (reader_tls (init_tls lost st) = Some (length (tls_list st)) /\
   length (tls_list (init_tls lost st)) = S (length (tls_list st)) /\
   node_at (tls_list (init_tls lost st)) (length (tls_list st))
   = Some (mk_node false 255)).
Proof.
  unfold init_tls.
  destruct (init_tls_walk lost (tls_list st)) as [l [a|]] eqn:Hw.
  - left. destruct (init_tls_walk_stop _ _ _ _ Hw) as (Hl & _ & n & Hn & Hu).
    apply init_tls_walk_keeps in Hw as [Hlen _].
    exists a, n. by destruct st.
  - right. apply init_tls_walk_keeps in Hw as [Hlen _].
    destruct st as [m insts c l0 r w]. cbn in *. rewrite <- Hlen.
    split; [done|]. split; [done|]. apply node_at_head.
Qed.

(** X2.  [init_tls] removes no node, lowers no [in_use] flag and changes
    no status: a node of the roster is found at the same address
    afterwards, with the status it had, and in use if it was. *)
Theorem init_tls_keeps_nodes lost st b n :
  node_at (tls_list st) b = Some n ->
  exists n',
    node_at (tls_list (init_tls lost st)) b = Some n' /\
    status n' = status n /\ (in_use n = true -> in_use n' = true).
Proof.
  unfold init_tls. intros Hn.
  assert (Hb : (b < length (tls_list st))%nat).
  { unfold node_at in Hn. by destruct (Nat.ltb_spec b (length (tls_list st))). }
  destruct (init_tls_walk lost (tls_list st)) as [l r] eqn:Hw.
  apply init_tls_walk_keeps in Hw as [Hlen Hk].
  assert (Hl : exists n', node_at l b = Some n' /\ status n' = status n /\
                          (in_use n = true -> in_use n' = true)).
  { unfold node_at, node_index in *. rewrite Hlen.
    destruct (Nat.ltb_spec b (length (tls_list st))); [|lia]. by apply Hk. }
  destruct Hl as (n' & Hn' & Hs & Hu). exists n'.
  destruct r as [a|]; destruct st as [m insts c l0 r0 w]; cbn in *.
  - done.
  - rewrite node_at_cons by lia. done.
Qed.

Lemma init_tls_keeps_nodes_witness :
  exists n',
    node_at (tls_list (init_tls (fun _ => true)
                         (set_tls_list [mk_node false 1; mk_node true 0]
                                       chpl_privatization_init))) 0
    = Some n' /\
    status n' = 0 /\ (true = true -> in_use n' = true).
Proof.
  exact (init_tls_keeps_nodes (fun _ => true)
           (set_tls_list [mk_node false 1; mk_node true 0] chpl_privatization_init)
           0%nat (mk_node true 0) eq_refl).
Defined.

(** X3.  Between two operations of a thread, [acquireRead] returns the
    current index and leaves it, as a [uint8_t], in the status of the
    node the key names; the [releaseRead] that follows returns every node
    to idle.  Neither touches the instances, the blocks, the index or the
    lock, and the key names the same node after both. *)
Theorem read_section_advertises st :
  tls_idle st ->
  exists st1 a n st2,
    acquireRead st = Ok (currentInstanceIdx st, st1) /\
    reader_tls st1 = Some a /\ node_at (tls_list st1) a = Some n /\
    status n = to_uint8_t (currentInstanceIdx st) /\
    releaseRead st1 = Ok st2 /\
    same_data st st2 /\ tls_idle st2 /\ reader_tls st2 = Some a.
Proof.
  intros Hi. destruct (acquireRead_idle st Hi) as (st1 & Ha & Hs & Hr).
  destruct (acquireRead_frame _ _ _ Ha) as (_ & _ & a & n & Hk & Hn & Hst).
  destruct (releaseRead_reading st1 Hr) as (st2 & Hrel & Hs2 & Hi2).
  destruct (releaseRead_frame _ _ Hrel) as (_ & Hk2 & _).
  exists st1, a, n, st2. repeat (split; [done|]).
  split; [by eapply same_data_trans|]. split; [done|]. congruence.
Qed.

Lemma read_section_advertises_witness :
  tls_idle one_reader /\
  exists st1 a n st2,
    acquireRead one_reader = Ok (currentInstanceIdx one_reader, st1) /\
    reader_tls st1 = Some a /\ node_at (tls_list st1) a = Some n /\
    status n = to_uint8_t (currentInstanceIdx one_reader) /\
    releaseRead st1 = Ok st2 /\
    same_data one_reader st2 /\ tls_idle st2 /\ reader_tls st2 = Some a.
Proof.
  assert (Hi : tls_idle one_reader).
  { split; [by repeat constructor|]. intros a [= <-]. cbn. lia. }
  split; [done|]. exact (read_section_advertises one_reader Hi).
Defined.

Lemma acquireRead_keeps_node st i st' :
  acquireRead st = Ok (i, st') -> keeps_node st st'.
Proof.
  unfold acquireRead. intros H.
  apply bind_Ok in H as (a & Ha & H). apply bind_Ok in H as (st1 & Hst & H).
  injection H as _ <-.
  apply set_status_frame in Hst as (_ & Hr & Hlen & Hlt & _).
  destruct (reader_tls st) as [a'|] eqn:Hk.
  - rewrite Hk in Ha. injection Ha as <-. exists a'. rewrite Hr, Hlen.
    by rewrite Hk.
  - unfold init_tls in *. rewrite init_tls_walk_alone in *.
    destruct st as [m insts c l r w]. cbn in *. subst r. injection Ha as <-.
    exists (length (mark <$> l)). rewrite Hr, Hlen. cbn.
    rewrite length_fmap. split; [done|]. split; [lia|done].
Qed.

(** A step that leaves the key and the length of the roster as they are
    can be put after one that keeps the node. *)
Lemma keeps_node_then st st1 st2 :
  keeps_node st st1 -> reader_tls st2 = reader_tls st1 ->
  length (tls_list st2) = length (tls_list st1) -> keeps_node st st2.
Proof. intros (a & Ha & Hlt & H) Hr Hl. exists a. by rewrite Hr, Hl. Qed.

Lemma keeps_node_trans st st1 st2 :
  keeps_node st st1 -> keeps_node st1 st2 -> keeps_node st st2.
Proof.
  intros (a & Ha & Hlt & H) (a2 & Ha2 & Hlt2 & H2). rewrite Ha in H2.
  destruct H2 as [-> Hl]. exists a. by rewrite Hl.
Qed.

Lemma publish_loop_keeps_node fuel v pid b : forall g st g' st',
  publish_loop fuel v pid b g st = Ok (g', st') -> keeps_node st st'.
Proof.
  induction fuel as [|fuel IH]; intros g st g' st'; [done|].
  cbn [publish_loop]. intros H.
  apply bind_Ok in H as ([i st1] & Ha & H).
  apply acquireRead_keeps_node in Ha.
  apply bind_Ok in H as (inst & _ & H).
  destruct (_ >=? _).
  - apply bind_Ok in H as (st2 & Hrel & H).
    apply releaseRead_frame in Hrel as (_ & Hr2 & Hl2).
    apply bind_Ok in H as ([grew st3] & Hws & H).
    apply write_section_frame in Hws as [Hl3 Hr3].
    apply IH in H. eapply keeps_node_trans; [|exact H].
    eapply keeps_node_then; [exact Ha|congruence|congruence].
  - apply bind_Ok in H as (st2 & Hws & H).
    apply write_slot_frame in Hws as (_ & _ & Hl2 & Hr2 & _).
    apply bind_Ok in H as (st3 & Hrel & H). injection H as _ <-.
    apply releaseRead_frame in Hrel as (_ & Hr3 & Hl3).
    eapply keeps_node_then; [exact Ha|congruence|congruence].
Qed.

Lemma exec_keeps_node fuel o st st' :
  exec fuel o st = Ok st' -> keeps_node st st'.
Proof.
  destruct o as [v pid|pid|pid|]; cbn [exec]; intros H.
  - apply bind_Ok in H as ([g st1] & H & [= <-]).
    by eapply publish_loop_keeps_node.
  - apply bind_Ok in H as ([y st1] & H & [= <-]).
    unfold chpl_getPrivatizedClass in H.
    apply bind_Ok in H as ([i st2] & Ha & H).
    apply acquireRead_keeps_node in Ha.
    apply bind_Ok in H as (ret & _ & H).
    apply bind_Ok in H as (st3 & Hrel & H). injection H as _ <-.
    apply releaseRead_frame in Hrel as (_ & Hr3 & Hl3).
    by eapply keeps_node_then.
  - unfold chpl_clearPrivatizedClass in H.
    apply bind_Ok in H as ([i st2] & Ha & H).
    apply acquireRead_keeps_node in Ha.
    apply bind_Ok in H as (st3 & Hws & Hrel).
    apply write_slot_frame in Hws as (_ & _ & Hl2 & Hr2 & _).
    apply releaseRead_frame in Hrel as (_ & Hr3 & Hl3).
    eapply keeps_node_then; [exact Ha|congruence|congruence].
  - apply bind_Ok in H as ([y st1] & H & [= <-]).
    unfold chpl_numPrivatizedClasses in H.
    apply bind_Ok in H as ([i st2] & Ha & H).
    apply acquireRead_keeps_node in Ha.
    apply bind_Ok in H as (inst & _ & H).
    apply bind_Ok in H as (st3 & Hrel & H). injection H as _ <-.
    apply releaseRead_frame in Hrel as (_ & Hr3 & Hl3).
    by eapply keeps_node_then.
Qed.

(** X4.  Whatever the state it starts from, a sequence of one or more
    operations that return leaves the thread bound to a node of the
    roster.  A thread that was bound keeps its node and the roster its
    length; a thread that was not is bound, by its first operation, to one
    new node.  No operation unbinds the key or takes a node off the
    roster. *)
Theorem operations_keep_node fuel o ops st st' :
  run fuel (o :: ops) st = Ok st' -> keeps_node st st'.
Proof.
  revert o st. induction ops as [|o' ops IH]; intros o st; cbn [run]; intros H.
  - apply bind_Ok in H as (st1 & H & [= <-]). by eapply exec_keeps_node.
  - apply bind_Ok in H as (st1 & Hex & H).
    apply exec_keeps_node in Hex. apply IH in H.
    by eapply keeps_node_trans.
Qed.

Lemma operations_keep_node_witness :
  run 2 [Publish 7 5000; Clear 3] chpl_privatization_init = Ok sparse_state /\
  keeps_node chpl_privatization_init sparse_state.
Proof.
  assert (H : run 2 [Publish 7 5000; Clear 3] chpl_privatization_init
              = Ok sparse_state) by (vm_compute; reflexivity).
  split; [exact H|]. exact (operations_keep_node 2 _ _ _ _ H).
Defined.

(** X5.  A thread inside its read section holds the writer.  In a
    reachable state [acquireRead] returns, and as long as the status of
    the thread's node stays as [acquireRead] left it, no write section
    grows the registry and frees the instance the thread reads, whatever
    the block index and the fuel. *)
Theorem reader_holds_writer st :
  reachable st ->
  exists i st1,
    acquireRead st = Ok (i, st1) /\
    forall fuel b st',
      write_section (frozen (tls_list st1)) fuel b st1 <> Ok (true, st').
Proof.
  intros Hr. destruct (reachable_wf _ Hr) as (vec & Hd & Hi & Hw).
  destruct (acquireRead_idle st Hi) as (st1 & Ha & Hs & _).
  exists (currentInstanceIdx st), st1. split; [done|].
  intros fuel b st' H.
  destruct (acquireRead_frame _ _ _ Ha) as (_ & _ & a & n & Hk & Hn & Hst).
  apply write_section_grew in H as [[k Hk'] _].
  apply wait_for_readers_Ok in Hk' as [_ Hall].
  assert (Ha' : (a < length (tls_list st1))%nat).
  { unfold node_at in Hn. by destruct (Nat.ltb_spec a (length (tls_list st1))). }
  destruct (Hall a Ha') as (j & _ & Hj). apply Hj.
  rewrite (frozen_lookup _ _ _ Hn), Hst.
  destruct Hs as (_ & _ & -> & _).
  by destruct (ok_idx _ _ Hd) as [-> | ->].
Qed.

Lemma reader_holds_writer_witness :
  reachable one_reader /\
  exists i st1,
    acquireRead one_reader = Ok (i, st1) /\
    forall fuel b st',
      write_section (frozen (tls_list st1)) fuel b st1 <> Ok (true, st').
Proof.
  assert (Hr : reachable one_reader).
  { exists 1%nat, [Get 0]. vm_compute. reflexivity. }
  split; [done|]. exact (reader_holds_writer one_reader Hr).
Defined.



(** ** The wait for readers, counted *)

Lemma wait_for_readers_reads reads inst fuel l : forall k k',
  wait_for_readers reads inst fuel k l = Ok k' -> (k + length l <= k')%nat.
Proof.
  induction l as [|n l IH]; intros k k'; cbn [wait_for_readers length].
  - intros [= <-]. lia.
  - intros H. apply bind_Ok in H as (k1 & Hs & Hw).
    apply spin_Ok in Hs as [Hk _]. apply IH in Hw. lia.
Qed.

(** X7.  The writer's wait reads the status of every node of the roster.
    A wait that ends has found, for every node, a status other than the
    old index at a read made of that node; the reads of distinct nodes are
    distinct reads and come in the order of the roster, so there is at
    least one read per node.  When no read finds the old index, the wait
    makes exactly one read per node and does not yield: it ends with no
    fuel at all. *)
Theorem wait_reads_each_node reads inst k l :
  (forall fuel k',
      wait_for_readers reads inst fuel k l = Ok k' ->
      (k + length l <= k')%nat /\
      exists pos : nat -> nat,
        (forall a, (a < length l)%nat ->
                   (k <= pos a < k')%nat /\ reads (pos a) a <> inst) /\
        (forall a a', (a < a' < length l)%nat -> (pos a' < pos a)%nat)) /\
  ((forall j a, (a < length l)%nat -> reads j a <> inst) ->
   wait_for_readers reads inst 0 k l = Ok (k + length l)%nat).
Proof.
  split.
  - intros fuel k' H. split; [by eapply wait_for_readers_reads|].
    apply wait_scan in H. by apply scan_ends_positions.
  - apply wait_for_readers_pass.
Qed.

Lemma wait_reads_each_node_witness :
  wait_for_readers reader_leaves 0 2 0 (tls_list two_threads) = Ok 4%nat /\
  exists pos : nat -> nat,
    (forall a, (a < 2)%nat ->
               (0 <= pos a < 4)%nat /\ reader_leaves (pos a) a <> 0) /\
    (forall a a', (a < a' < 2)%nat -> (pos a' < pos a)%nat).
Proof.
  assert (H : wait_for_readers reader_leaves 0 2 0 (tls_list two_threads)
              = Ok 4%nat) by (vm_compute; reflexivity).
  split; [exact H|].
  exact (proj2 (proj1 (wait_reads_each_node reader_leaves 0 0
                         (tls_list two_threads)) 2%nat 4%nat H)).
Defined.

(** ** Bounds of the three operations *)

Lemma slot_of_idx_outside vec m b idx :
  Forall (fun blk => length blk = 1024%nat) m ->
  ~ 0 <= idx < 1024 -> slot_of vec m b idx = Fault.
Proof.
  intros Hm Hi. unfold slot_of, load at 1.
  destruct (0 <=? b); [|done].
  destruct (vec !! Z.to_nat b) as [a|]; cbn [bind of_option]; [|done].
  destruct (m !! a) as [blk|] eqn:Hblk; cbn [bind of_option]; [|done].
  eapply Forall_lookup_1 in Hm; [|exact Hblk].
  unfold load. destruct (Z.leb_spec 0 idx); [|done].
  rewrite lookup_ge_None_2; [done|lia].
Qed.

Lemma get_outside st vec pid :
  wf st vec ->
  ~ (0 <= blockIdx_of pid < Z.of_nat (length vec) /\ 0 <= idx_of pid < 1024) ->
  chpl_getPrivatizedClass pid st = Fault.
Proof.
  intros Hwf Hout. destruct (get_eq _ _ Hwf) as (st' & _ & _ & Heq).
  rewrite Heq.
  destruct (decide (0 <= idx_of pid < 1024)) as [Hi|Hi].
  - rewrite slot_of_outside; [done|lia].
  - rewrite slot_of_idx_outside; [done|apply Hwf|done].
Qed.

(** X8.  In a reachable state, [get] and [clear] of a pid return exactly
    when the [int] block index of the pid is at least 0 and below the
    [len] of the current instance and its slot index is within a block.
    Otherwise both leave defined behaviour (an access outside the blocks
    vector or outside the block): neither checks, neither grows. *)
Theorem get_clear_bounds st pid :
  reachable st ->
  (0 <= blockIdx_of pid < len (cur_inst st) /\ 0 <= idx_of pid < 1024 ->
   (exists y st', chpl_getPrivatizedClass pid st = Ok (y, st')) /\
   (exists st', chpl_clearPrivatizedClass pid st = Ok st')) /\
  (~ (0 <= blockIdx_of pid < len (cur_inst st) /\ 0 <= idx_of pid < 1024) ->
   chpl_getPrivatizedClass pid st = Fault /\
   chpl_clearPrivatizedClass pid st = Fault).
Proof.
  intros Hr. destruct (reachable_wf _ Hr) as (vec & Hwf).
  rewrite (wf_len _ _ Hwf). split.
  - intros [Hb Hi]. split.
    + destruct (slot_of_defined vec (mem st) (blockIdx_of pid) (idx_of pid))
        as [y Hy]; try apply Hwf; try done.
      destruct (get_value _ _ pid y Hwf Hy) as [st' H]. by exists y, st'.
    + destruct (clear_inside _ _ pid Hwf Hb Hi) as (st' & H & _). by exists st'.
  - intros Hout. split; [by apply (get_outside _ vec)|by apply (clear_outside _ vec)].
Qed.

Lemma get_clear_bounds_witness :
  reachable sparse_state /\
  (exists y st', chpl_getPrivatizedClass 5119 sparse_state = Ok (y, st')) /\
  chpl_getPrivatizedClass 5120 sparse_state = Fault /\
  chpl_clearPrivatizedClass 5120 sparse_state = Fault.
Proof.
  assert (Hr : reachable sparse_state).
  { exists 2%nat, [Publish 7 5000; Clear 3]. vm_compute. reflexivity. }
  split; [done|]. split.
  - apply (proj1 (get_clear_bounds sparse_state 5119 Hr)).
    vm_compute. repeat split; discriminate.
  - apply (proj2 (get_clear_bounds sparse_state 5120 Hr)).
    intros [[_ H] _]. vm_compute in H. discriminate H.
Defined.

(** X9.  In a reachable state, [chpl_newPrivatizedClass] returns, given
    fuel enough, exactly when the [int] block index of the pid is at least
    0 and below [INT_MAX] and its slot index is within a block; two passes
    of the loop are then enough.  For every other pid it runs into
    undefined behaviour or never leaves its loop. *)
Theorem publish_returns_iff st v pid :
  reachable st ->
  ((exists fuel r, chpl_newPrivatizedClass fuel v pid st = Ok r) <->
   0 <= blockIdx_of pid < INT_MAX /\ 0 <= idx_of pid < 1024) /\
  (0 <= blockIdx_of pid < INT_MAX /\ 0 <= idx_of pid < 1024 ->
   exists r, chpl_newPrivatizedClass 2 v pid st = Ok r).
Proof.
  intros Hr. destruct (reachable_wf _ Hr) as (vec & Hwf).
  assert (Htot : 0 <= blockIdx_of pid < INT_MAX /\ 0 <= idx_of pid < 1024 ->
                 exists r, chpl_newPrivatizedClass 2 v pid st = Ok r).
  { intros [Hb Hi].
    destruct (publish_loop_total st vec v pid (blockIdx_of pid) 0 0%nat Hwf Hb Hi)
      as (g & st' & H).
    by exists (g, st'). }
  split; [|exact Htot]. split.
  - intros (fuel & [g st'] & H). unfold chpl_newPrivatizedClass in H.
    fold (blockIdx_of pid) in H.
    apply (publish_loop_inv _ vec) in H as (Hb & Hi & _);
      [done|done|apply blockIdx_of_range].
  - intros H. destruct (Htot H) as [r Hr']. by exists 2%nat, r.
Qed.

Lemma publish_returns_iff_witness :
  reachable chpl_privatization_init /\
  exists r, chpl_newPrivatizedClass 2 7 5000 chpl_privatization_init = Ok r.
Proof.
  assert (Hr : reachable chpl_privatization_init) by (by exists 0%nat, []).
  split; [done|].
  apply (proj2 (publish_returns_iff chpl_privatization_init 7 5000 Hr)).
  vm_compute. repeat split; discriminate.
Defined.

Lemma negative_pid_indices pid :
  - 2 ^ 41 <= pid < 0 ->
  INT_MIN <= blockIdx_of pid <= 0 /\
  (blockIdx_of pid = 0 -> idx_of pid < 0).
Proof.
  intros Hp. unfold blockIdx_of, idx_of, CHPL_PRIVATIZATION_BLOCK_SIZE.
  pose proof (Z.quot_rem' pid 1024) as Hqr.
  pose proof (Z.rem_nonpos pid 1024 ltac:(lia) ltac:(lia)) as Hr0.
  pose proof (Z.rem_bound_abs pid 1024 ltac:(lia)) as Hra.
  change (2 ^ 41) with 2199023255552 in Hp.
  assert (Hq : INT_MIN <= pid ÷ 1024 <= 0) by (unfold INT_MIN; lia).
  rewrite (to_int_id (pid ÷ 1024)) by (unfold INT_MIN, INT_MAX in *; lia).
  rewrite (to_int_id (Z.rem pid 1024)) by (unfold INT_MIN, INT_MAX; lia).
  split; [done|]. intros Hz. lia.
Qed.

(** A pass that gets to the store with a slot index outside the block. *)
Lemma publish_loop_store_outside st vec v pid b fuel g :
  wf st vec -> 0 <= b < Z.of_nat (length vec) -> ~ 0 <= idx_of pid < 1024 ->
  publish_loop (S fuel) v pid b g st = Fault.
Proof.
  intros Hwf Hb Hidx.
  destruct (enter_read _ _ Hwf) as (st1 & Ha & Hs & Hr & Hd1 & Hld).
  destruct Hwf as (Hd & Hi & Hw).
  pose proof (ok_len _ _ Hd) as Hl.
  cbn [publish_loop]. rewrite Ha. cbn [bind]. rewrite Hld. cbn [bind len].
  rewrite geb_size_t by (unfold INT_MIN, INT_MAX in *; lia).
  destruct (Z.leb_spec 0 b); [|lia].
  destruct (Z.ltb_spec b (Z.of_nat (length vec))); [|lia]. cbn [andb negb].
  destruct Hs as (Hsm & Hsi & Hsc & Hsw). rewrite <- Hsc. fold (idx_of pid).
  rewrite (write_slot_outside _ vec) by (done || lia). done.
Qed.

(** The write section at a negative block index: [deltaBlocks] is the
    difference [blockIdx + 1 - len] when that is an [int], and the section
    does not grow; otherwise it wraps to a positive number and the
    allocation of [(size_t)(blockIdx + 1)] pointers is refused. *)
Lemma write_section_negative_exact reads fuel st vec b :
  data_ok st vec -> writeLock st = false ->
  INT_MIN <= b < 0 ->
  write_section reads fuel b st =
  if INT_MIN <=? b + 1 - Z.of_nat (length vec) then Ok (false, st) else Fault.
Proof.
  intros H Hw Hb. pose proof (ok_len _ _ H) as Hl. unfold INT_MAX, INT_MIN in *.
  unfold write_section, acquireWrite. rewrite Hw. cbn [bind].
  assert (Hs : data_ok (set_writeLock true st) vec).
  { destruct H. by split. }
  unfold getCurrentInstanceIdx.
  rewrite (load_cur _ vec) by done. cbn [bind].
  rewrite int_add_ok by (unfold INT_MIN, INT_MAX; lia). cbn [bind].
  replace (cur_inst (set_writeLock true st)) with (cur_inst st) by done.
  rewrite (ok_cur _ _ H). cbn [len].
  assert (Hrel : releaseWrite (set_writeLock true st) = st).
  { destruct st. cbn in Hw. by subst. }
  destruct (Z.eq_dec (b + 1) 0) as [Hz|Hz].
  - rewrite Hz. rewrite (to_size_t_id 0) by lia.
    rewrite delta_exact by (unfold INT_MIN, INT_MAX; lia).
    destruct (Z.leb_spec (0 - Z.of_nat (length vec)) 0); [|lia].
    destruct (Z.leb_spec (-2147483648) (0 - Z.of_nat (length vec))); [|lia].
    by rewrite Hrel.
  - rewrite (to_size_t_neg (b + 1)) by lia.
    rewrite (to_size_t_id (b + 1 + 2 ^ 64 - Z.of_nat (length vec))) by lia.
    replace (b + 1 + 2 ^ 64 - Z.of_nat (length vec))
      with (b + 1 - Z.of_nat (length vec) + 4294967296 * 4294967296) by lia.
    rewrite to_int_shift.
    destruct (Z.leb_spec (-2147483648) (b + 1 - Z.of_nat (length vec))).
    + rewrite to_int_id by (unfold INT_MIN, INT_MAX; lia).
      destruct (Z.leb_spec (b + 1 - Z.of_nat (length vec)) 0); [|lia].
      by rewrite Hrel.
    + rewrite <- (to_int_shift _ 1).
      rewrite to_int_id by (unfold INT_MIN, INT_MAX; lia).
      destruct (Z.leb_spec (b + 1 - Z.of_nat (length vec) + 1 * 4294967296) 0);
        [lia|].
      unfold chpl_mem_allocManyZero, sizeof_ptr.
      destruct (Z.ltb_spec ((b + 1 + 2 ^ 64) * 8) (2 ^ 64)) as [Hlt|]; [lia|done].
Qed.

(** The loop at a negative block index: it goes round for ever when the
    section finds nothing to grow, and stops at the refused allocation
    otherwise. *)
Lemma publish_loop_negative_exact st vec v pid b :
  INT_MIN <= b < 0 ->
  forall fuel g, wf st vec ->
    publish_loop fuel v pid b g st =
    if INT_MIN <=? b + 1 - Z.of_nat (length vec) then Timeout
    else match fuel with O => Timeout | S _ => Fault end.
Proof.
  intros Hb fuel. revert st. induction fuel as [|fuel IH]; intros st g Hwf.
  - cbn [publish_loop]. by destruct (_ <=? _).
  - destruct (enter_write st vec v pid b Hwf) as (st2 & Hwf2 & Hs & Heq).
    { unfold INT_MIN, INT_MAX in *. lia. }
    { lia. }
    rewrite Heq.
    rewrite (write_section_negative_exact _ _ _ vec) by (done || apply Hwf2).
    destruct (INT_MIN <=? b + 1 - Z.of_nat (length vec)) eqn:E; [|done].
    cbn [bind]. by apply IH.
Qed.

Lemma negative_pid_split pid :
  - 2 ^ 41 <= pid < 0 ->
  (- CHPL_PRIVATIZATION_BLOCK_SIZE < pid -> blockIdx_of pid = 0 /\ idx_of pid = pid) /\
  (pid <= - CHPL_PRIVATIZATION_BLOCK_SIZE -> INT_MIN <= blockIdx_of pid < 0).
Proof.
  intros Hp. unfold blockIdx_of, idx_of, CHPL_PRIVATIZATION_BLOCK_SIZE.
  pose proof (Z.quot_rem' pid 1024) as Hqr.
  pose proof (Z.rem_nonpos pid 1024 ltac:(lia) ltac:(lia)) as Hr0.
  pose proof (Z.rem_bound_abs pid 1024 ltac:(lia)) as Hra.
  change (2 ^ 41) with 2199023255552 in Hp.
  assert (Hq : INT_MIN <= pid ÷ 1024 <= 0) by (unfold INT_MIN; lia).
  rewrite (to_int_id (pid ÷ 1024)) by (unfold INT_MIN, INT_MAX in *; lia).
  rewrite (to_int_id (Z.rem pid 1024)) by (unfold INT_MIN, INT_MAX; lia).
  split; intros H; lia.
Qed.

(** X10.  A negative pid is never served, and nothing turns it down.  In a
    reachable state, for every pid from [-2^41] up to [-1], [get] and
    [clear] index the table out of bounds (the block or the slot index is
    negative), and no run of [chpl_newPrivatizedClass] ends within defined
    behaviour.  For a pid above [-BLOCK_SIZE] the block index is 0 and the
    slot index is the pid itself: the first pass stores out of the bounds
    of block 0.  For a pid of [-BLOCK_SIZE] or less the block index is
    negative: the loop goes round for ever when [blockIdx + 1 - len] is an
    [int] (the section finds [deltaBlocks <= 0] on every pass), and
    otherwise the first pass asks the allocator for more bytes than
    [size_t] holds. *)
Theorem negative_pid_not_served st v pid :
  reachable st -> - 2 ^ 41 <= pid < 0 ->
  chpl_getPrivatizedClass pid st = Fault /\
  chpl_clearPrivatizedClass pid st = Fault /\
  (forall fuel r, chpl_newPrivatizedClass fuel v pid st <> Ok r) /\
  (- CHPL_PRIVATIZATION_BLOCK_SIZE < pid ->
   blockIdx_of pid = 0 /\ idx_of pid = pid /\
   forall fuel, chpl_newPrivatizedClass (S fuel) v pid st = Fault) /\
  (pid <= - CHPL_PRIVATIZATION_BLOCK_SIZE ->
   blockIdx_of pid < 0 /\
   forall fuel,
     chpl_newPrivatizedClass (S fuel) v pid st =
     if INT_MIN <=? blockIdx_of pid + 1 - len (cur_inst st)
     then Timeout else Fault).
Proof.
  intros Hr Hp. destruct (reachable_wf _ Hr) as (vec & Hwf).
  destruct (negative_pid_indices pid Hp) as [Hb Hi].
  destruct (negative_pid_split pid Hp) as [Hhi Hlo].
  assert (Hout : ~ (0 <= blockIdx_of pid < Z.of_nat (length vec)
                    /\ 0 <= idx_of pid < 1024)).
  { intros [Hb' Hi']. assert (blockIdx_of pid = 0) as Hz by lia.
    apply Hi in Hz. lia. }
  split; [by apply (get_outside _ vec)|].
  split; [by apply (clear_outside _ vec)|].
  split; [|split].
  - intros fuel [g st'] H. unfold chpl_newPrivatizedClass in H.
    fold (blockIdx_of pid) in H.
    apply (publish_loop_inv _ vec) in H as (Hb' & Hi' & _);
      [|done|apply blockIdx_of_range].
    assert (blockIdx_of pid = 0) as Hz by lia. apply Hi in Hz. lia.
  - intros H. destruct (Hhi H) as [Hb0 Hi0]. split; [done|]. split; [done|].
    intros fuel. unfold chpl_newPrivatizedClass. fold (blockIdx_of pid).
    rewrite Hb0. pose proof (ok_len _ _ (proj1 Hwf)) as Hl.
    apply (publish_loop_store_outside _ vec); [done|lia|]. rewrite Hi0. lia.
  - intros H. pose proof (Hlo H) as Hneg. split; [lia|].
    intros fuel. unfold chpl_newPrivatizedClass. fold (blockIdx_of pid).
    rewrite (publish_loop_negative_exact st vec) by done.
    by rewrite (wf_len _ _ Hwf).
Qed.

Lemma negative_pid_not_served_witness :
  reachable chpl_privatization_init /\
  chpl_getPrivatizedClass (-1) chpl_privatization_init = Fault /\
  chpl_clearPrivatizedClass (-1) chpl_privatization_init = Fault /\
  (forall fuel,
      chpl_newPrivatizedClass (S fuel) 7 (-1) chpl_privatization_init = Fault) /\
  (forall fuel,
      chpl_newPrivatizedClass (S fuel) 7 (-1024) chpl_privatization_init
      = Timeout).
Proof.
  assert (Hr : reachable chpl_privatization_init) by (by exists 0%nat, []).
  split; [done|].
  destruct (negative_pid_not_served chpl_privatization_init 7 (-1) Hr)
    as (Hget & Hclear & _ & Hhi & _).
  { vm_compute. split; [discriminate|reflexivity]. }
  destruct (negative_pid_not_served chpl_privatization_init 7 (-1024) Hr)
    as (_ & _ & _ & _ & Hlo).
  { vm_compute. split; [discriminate|reflexivity]. }
  split; [exact Hget|]. split; [exact Hclear|]. split.
  - apply Hhi. by vm_compute.
  - intros fuel. destruct Hlo as [_ Hlo]; [by vm_compute|]. exact (Hlo fuel).
Defined.

(** ** Executions against the reference *)

Lemma written_store_of o p :
  op_in_range o -> pid_in_range p ->
  written o (blockIdx_of p) (idx_of p) = store_of o p.
Proof.
  intros Ho [Hp0 Hp1].
  assert (Hinj : forall q, pid_in_range q ->
            (blockIdx_of p = blockIdx_of q /\ idx_of p = idx_of q) <-> q = p).
  { intros q [Hq0 Hq1]. split; [|by intros ->].
    intros [Hb Hi]. symmetry. by apply slot_injective. }
  destruct o as [v q|q|q|]; cbn [written store_of op_in_range] in *; try done.
  - destruct (decide (q = p)) as [->|Hne].
    + by rewrite decide_True.
    + rewrite decide_False; [done|]. intros H. by apply Hinj in H.
  - destruct (decide (q = p)) as [->|Hne].
    + by rewrite decide_True.
    + rewrite decide_False; [done|]. intros H. by apply Hinj in H.
Qed.

Lemma run_expected fuel ops : forall st vec st',
  wf st vec -> run fuel ops st = Ok st' -> Forall op_in_range ops ->
  exists vec', wf st' vec' /\ (length vec <= length vec')%nat /\
    forall p x,
      0 <= p -> p / CHPL_PRIVATIZATION_BLOCK_SIZE < Z.of_nat (length vec') ->
      grown_slot vec (mem st) (Z.of_nat (length vec'))
                 (blockIdx_of p) (idx_of p) = Ok x ->
      slot_of vec' (mem st') (blockIdx_of p) (idx_of p)
      = Ok (expected ops p x).
Proof.
  induction ops as [|o ops IH]; intros st vec st' Hwf Hrun Hops;
    cbn [run] in Hrun.
  - injection Hrun as <-. exists vec. split; [done|]. split; [done|].
    intros p x _ _ Hx. by rewrite grown_slot_same in Hx.
  - apply bind_Ok in Hrun as (st1 & Hex & Hrun).
    apply Forall_cons in Hops as [Ho Hops].
    destruct (exec_effect _ _ _ _ _ Hwf Hex) as (vec1 & Hwf1 & Hle & Hsl).
    destruct (IH _ _ _ Hwf1 Hrun Hops) as (vec' & Hwf' & Hle' & Hexp).
    exists vec'. split; [done|]. split; [lia|].
    intros p x Hp Hin Hx. cbn [expected fold_left].
    fold (expected ops p (default x (store_of o p))).
    pose proof (ok_len _ _ (proj1 Hwf')) as Hl'.
    assert (Hpr : pid_in_range p) by (split; [done|lia]).
    assert (Hb : blockIdx_of p = p / CHPL_PRIVATIZATION_BLOCK_SIZE).
    { apply blockIdx_of_exact; [done|lia]. }
    pose proof (idx_of_bound p Hp) as Hi.
    assert (Hb0 : 0 <= blockIdx_of p).
    { rewrite Hb. apply Z.div_pos; [done|]. by vm_compute. }
    apply Hexp; try done.
    rewrite <- (written_store_of o p Ho Hpr).
    specialize (Hsl (blockIdx_of p) (idx_of p)).
    unfold grown_slot in Hx |- *.
    destruct (Z.ltb_spec (blockIdx_of p) (Z.of_nat (length vec1))) as [Hlt|Hge].
    + rewrite Hsl.
      destruct (written o (blockIdx_of p) (idx_of p)) as [y|]; [done|].
      cbn [default]. unfold grown_slot.
      destruct (Z.ltb_spec (blockIdx_of p) (Z.of_nat (length vec))); [done|].
      destruct (Z.ltb_spec (blockIdx_of p) (Z.of_nat (length vec'))); [|lia].
      by destruct (Z.ltb_spec (blockIdx_of p) (Z.of_nat (length vec1))); [|lia].
    + rewrite slot_of_outside in Hsl by lia.
      destruct (written o (blockIdx_of p) (idx_of p)) as [y|]; [done|].
      cbn [default].
      by destruct (Z.ltb_spec (blockIdx_of p) (Z.of_nat (length vec))); [lia|].
Qed.

(** X11.  Point correctness.  After any execution from
    [chpl_privatization_init] whose pids all have a block index that fits
    [int] (pids from 0 up to 2^41), [get] of a pid [p >= 0] inside the
    current instance returns the value the most recent publish or clear of
    [p] stored, and null when there was none. *)
Theorem get_returns_last_store fuel ops st p :
  run fuel ops chpl_privatization_init = Ok st ->
  Forall op_in_range ops ->
  0 <= p -> p / CHPL_PRIVATIZATION_BLOCK_SIZE < len (cur_inst st) ->
  exists st', chpl_getPrivatizedClass p st = Ok (expected ops p NULL, st').
Proof.
  intros Hrun Hops Hp Hin.
  destruct (run_expected _ _ _ _ _ init_wf Hrun Hops) as (vec & Hwf & Hle & Hexp).
  rewrite (wf_len _ _ Hwf) in Hin.
  destruct (get_inside _ _ p Hwf Hp Hin) as (_ & Hbr & Hir & _).
  apply (get_value _ vec); [done|]. apply Hexp; try done.
  apply grown_slot_null; try done.
  intros Hb1. apply init_slots_null; [|done]. cbn [length] in Hb1. lia.
Qed.

Lemma get_returns_last_store_witness :
  run 2 [Publish 7 5000; Clear 3] chpl_privatization_init = Ok sparse_state /\
  exists st', chpl_getPrivatizedClass 5000 sparse_state = Ok (7, st').
Proof.
  split; [vm_compute; reflexivity|].
  apply (get_returns_last_store 2 [Publish 7 5000; Clear 3] sparse_state 5000).
  - vm_compute; reflexivity.
  - repeat constructor; by vm_compute.
  - lia.
  - by vm_compute.
Defined.

Lemma wf_unique st v1 v2 : wf st v1 -> wf st v2 -> v1 = v2.
Proof.
  intros (H1 & _) (H2 & _).
  pose proof (ok_cur _ _ H1) as E1. rewrite (ok_cur _ _ H2) in E1.
  injection E1 as E _. symmetry.
  eapply (inj (fmap Some)). exact E.
Qed.

Lemma exec_len fuel o st vec st' vec' :
  wf st vec -> exec fuel o st = Ok st' -> wf st' vec' ->
  Z.of_nat (length vec') =
  match o with
  | Publish _ q => Z.max (Z.of_nat (length vec)) (blockIdx_of q + 1)
  | _ => Z.of_nat (length vec)
  end.
Proof.
  intros Hwf Hrun Hwf'. destruct o as [v pid|pid|pid|]; cbn [exec] in *.
  - apply bind_Ok in Hrun as ([g' st1] & Hrun & [= <-]).
    unfold chpl_newPrivatizedClass in Hrun. fold (blockIdx_of pid) in Hrun.
    apply (publish_loop_inv _ vec) in Hrun
      as (_ & _ & vec1 & Hwf1 & Hlen & _); [|done|apply blockIdx_of_range].
    by rewrite (wf_unique _ _ _ Hwf' Hwf1).
  - destruct (get_eq _ _ Hwf) as (st2 & Hwf2 & _ & Heq). rewrite Heq in Hrun.
    apply bind_Ok in Hrun as ([x st1] & Hrun & [= <-]).
    apply bind_Ok in Hrun as (y & _ & [= _ <-]).
    by rewrite (wf_unique _ _ _ Hwf' Hwf2).
  - destruct (decide (0 <= blockIdx_of pid < Z.of_nat (length vec)
                      /\ 0 <= idx_of pid < 1024)) as [[Hb Hi]|Hout].
    + destruct (clear_inside _ _ pid Hwf Hb Hi) as (st2 & Heq & Hwf2 & _).
      rewrite Heq in Hrun. injection Hrun as <-.
      by rewrite (wf_unique _ _ _ Hwf' Hwf2).
    + by rewrite (clear_outside _ vec) in Hrun.
  - destruct (capacity_eq _ _ Hwf) as (st2 & Hwf2 & _ & Heq).
    rewrite Heq in Hrun. cbn in Hrun. injection Hrun as <-.
    by rewrite (wf_unique _ _ _ Hwf' Hwf2).
Qed.

Lemma run_len fuel ops : forall st vec st' vec',
  wf st vec -> run fuel ops st = Ok st' -> wf st' vec' ->
  Z.of_nat (length vec') = blocks_needed ops (Z.of_nat (length vec)).
Proof.
  induction ops as [|o ops IH]; intros st vec st' vec' Hwf Hrun Hwf';
    cbn [run] in Hrun.
  - injection Hrun as <-. by rewrite (wf_unique _ _ _ Hwf' Hwf).
  - apply bind_Ok in Hrun as (st1 & Hex & Hrun).
    destruct (exec_effect _ _ _ _ _ Hwf Hex) as (vec1 & Hwf1 & _).
    rewrite (IH _ _ _ _ Hwf1 Hrun Hwf').
    rewrite (exec_len _ _ _ _ _ _ Hwf Hex Hwf1).
    unfold blocks_needed. cbn [fold_left]. by destruct o.
Qed.

(** X12.  The registry is exactly as large as the publishes asked for.
    After any sequence of operations that return, run from a reachable
    state, the [len] of the current instance is the largest of the [len]
    it started from and the block indices, plus one, of the pids
    published (as [int blockIdx] holds them: [pid / 1024] for pids below
    2^41), and [capacity()] returns 1024 times that.  Gets, clears and
    capacity queries never change it. *)
Theorem len_follows_publishes fuel ops st1 st2 :
  reachable st1 -> run fuel ops st1 = Ok st2 ->
  len (cur_inst st2) = blocks_needed ops (len (cur_inst st1)) /\
  exists st3,
    chpl_numPrivatizedClasses st2 =
    Ok (blocks_needed ops (len (cur_inst st1)) * CHPL_PRIVATIZATION_BLOCK_SIZE,
        st3).
Proof.
  intros Hr Hrun. destruct (reachable_wf _ Hr) as (vec & Hwf).
  destruct (run_wf _ _ _ _ _ Hwf Hrun) as (vec' & Hwf' & _).
  rewrite (wf_len _ _ Hwf), (wf_len _ _ Hwf').
  rewrite <- (run_len _ _ _ _ _ _ Hwf Hrun Hwf'). split; [done|].
  destruct (capacity_eq _ _ Hwf') as (st3 & _ & _ & E). by exists st3.
Qed.

Lemma len_follows_publishes_witness :
  reachable chpl_privatization_init /\
  run 2 [Publish 7 5000; Clear 3] chpl_privatization_init = Ok sparse_state /\
  len (cur_inst sparse_state) = 5.
Proof.
  assert (Hr : reachable chpl_privatization_init) by (by exists 0%nat, []).
  assert (Hrun : run 2 [Publish 7 5000; Clear 3] chpl_privatization_init
                 = Ok sparse_state) by (vm_compute; reflexivity).
  split; [done|]. split; [done|].
  exact (proj1 (len_follows_publishes 2 _ _ _ Hr Hrun)).
Defined.

(** ** Blocks across instances *)

Lemma clear_mem_length i st st' :
  chpl_clearPrivatizedClass i st = Ok st' -> length (mem st') = length (mem st).
Proof.
  unfold chpl_clearPrivatizedClass. intros H.
  apply bind_Ok in H as ([rc st1] & Ha & H).
  apply bind_Ok in H as (st2 & Hws & Hrel).
  apply acquireRead_frame in Ha as (_ & (Hm1 & _) & _).
  apply write_slot_frame in Hws as (_ & _ & _ & _ & _ & Hm2).
  apply releaseRead_frame in Hrel as ((Hm3 & _) & _). congruence.
Qed.

Lemma seq_prefix n m : (n <= m)%nat -> seq 0 n `prefix_of` seq 0 m.
Proof.
  intros H. replace m with (n + (m - n))%nat by lia. rewrite seq_app.
  by apply prefix_app_r.
Qed.

(** In a reachable state the table lists the blocks of the store in the
    order of their creation. *)
Lemma exec_seq fuel o st vec st' :
  wf st vec -> vec = seq 0 (length (mem st)) -> exec fuel o st = Ok st' ->
  exists vec', wf st' vec' /\ vec' = seq 0 (length (mem st')) /\
               (length (mem st) <= length (mem st'))%nat.
Proof.
  intros Hwf Hseq Hrun. destruct o as [v pid|pid|pid|]; cbn [exec] in *.
  - apply bind_Ok in Hrun as ([g' st0] & Hrun & [= <-]).
    unfold chpl_newPrivatizedClass in Hrun. fold (blockIdx_of pid) in Hrun.
    pose proof Hrun as Hinv.
    apply (publish_loop_inv _ vec) in Hinv as (Hb & Hi & _);
      [|done|apply blockIdx_of_range].
    destruct fuel as [|fuel]; [done|].
    destruct (Z_lt_le_dec (blockIdx_of pid) (Z.of_nat (length vec))) as [Hin|Hout].
    + destruct (publish_loop_store st vec v pid (blockIdx_of pid) Hwf)
        as (st1 & Hwf1 & Hlen & _ & Heq); [lia|done|].
      rewrite Heq in Hrun. injection Hrun as _ <-.
      exists vec. split; [done|]. rewrite Hlen. split; [done|lia].
    + destruct (publish_loop_grow st vec v pid (blockIdx_of pid) Hwf)
        as (st2 & Hwf2 & Hm2 & Heq); [lia|].
      rewrite Heq in Hrun. destruct fuel as [|fuel]; [done|].
      destruct (publish_loop_store st2 _ v pid (blockIdx_of pid) Hwf2)
        as (st3 & Hwf3 & Hlen & _ & Heq3); [|done|].
      { rewrite length_app, length_seq. lia. }
      rewrite Heq3 in Hrun. injection Hrun as _ <-.
      eexists. split; [exact Hwf3|].
      rewrite Hlen, Hm2, length_app, length_replicate.
      split; [|lia]. rewrite seq_app. by rewrite <- Hseq.
  - destruct (get_eq _ _ Hwf) as (st2 & Hwf2 & Hm & Heq). rewrite Heq in Hrun.
    apply bind_Ok in Hrun as ([x st1] & Hrun & [= <-]).
    apply bind_Ok in Hrun as (y & _ & [= _ <-]).
    exists vec. split; [done|]. by rewrite Hm.
  - pose proof (clear_mem_length _ _ _ Hrun) as Hm.
    destruct (decide (0 <= blockIdx_of pid < Z.of_nat (length vec)
                      /\ 0 <= idx_of pid < 1024)) as [[Hb Hi]|Hout].
    + destruct (clear_inside _ _ pid Hwf Hb Hi) as (st2 & Heq & Hwf2 & _).
      rewrite Heq in Hrun. injection Hrun as <-.
      exists vec. split; [done|]. rewrite Hm. split; [done|lia].
    + by rewrite (clear_outside _ vec) in Hrun.
  - destruct (capacity_eq _ _ Hwf) as (st2 & Hwf2 & Hm & Heq).
    rewrite Heq in Hrun. cbn in Hrun. injection Hrun as <-.
    exists vec. split; [done|]. by rewrite Hm.
Qed.

Lemma run_seq fuel ops : forall st vec st',
  wf st vec -> vec = seq 0 (length (mem st)) -> run fuel ops st = Ok st' ->
  exists vec', wf st' vec' /\ vec' = seq 0 (length (mem st')) /\
               (length (mem st) <= length (mem st'))%nat.
Proof.
  induction ops as [|o ops IH]; intros st vec st' Hwf Hseq Hrun;
    cbn [run] in Hrun.
  - injection Hrun as <-. by exists vec.
  - apply bind_Ok in Hrun as (st1 & Hex & Hrun).
    destruct (exec_seq _ _ _ _ _ Hwf Hseq Hex) as (vec1 & Hwf1 & Hs1 & Hl1).
    destruct (IH _ _ _ Hwf1 Hs1 Hrun) as (vec' & Hwf' & Hs' & Hl').
    exists vec'. split; [done|]. split; [done|lia].
Qed.

(** X13.  Blocks are shared between the instances and never dropped.
    In a reachable state the blocks vector of the current instance refers
    to every block ever created, each once, in the order of creation.
    Along any sequence of operations that return, the vector of the
    current instance extends the one the sequence started from: a grow
    copies the references, the blocks stay where they are. *)
Theorem blocks_are_shared fuel ops st1 st2 :
  reachable st1 -> run fuel ops st1 = Ok st2 ->
  exists old new,
    blocks (cur_inst st1) = Some old /\ blocks (cur_inst st2) = Some new /\
    old `prefix_of` new /\
    new = Some <$> seq 0 (length (mem st2)).
Proof.
  intros (fuel0 & ops0 & Hrun0) Hrun.
  destruct (run_seq _ _ _ _ _ init_wf eq_refl Hrun0) as (vec & Hwf & Hs & _).
  destruct (run_seq _ _ _ _ _ Hwf Hs Hrun) as (vec' & Hwf' & Hs' & Hl).
  exists (Some <$> vec), (Some <$> vec').
  rewrite (ok_cur _ _ (proj1 Hwf)), (ok_cur _ _ (proj1 Hwf')). cbn [blocks].
  split; [done|]. split; [done|]. split; [|by rewrite Hs'].
  rewrite Hs, Hs'. destruct (seq_prefix _ _ Hl) as [k ->].
  rewrite fmap_app. by apply prefix_app_r.
Qed.

Lemma blocks_are_shared_witness :
  reachable chpl_privatization_init /\
  run 2 [Publish 7 5000; Clear 3] chpl_privatization_init = Ok sparse_state /\
  exists old new,
    blocks (cur_inst chpl_privatization_init) = Some old /\
    blocks (cur_inst sparse_state) = Some new /\
    old `prefix_of` new /\
    new = Some <$> seq 0 (length (mem sparse_state)).
Proof.
  assert (Hr : reachable chpl_privatization_init) by (by exists 0%nat, []).
  assert (Hrun : run 2 [Publish 7 5000; Clear 3] chpl_privatization_init
                 = Ok sparse_state) by (vm_compute; reflexivity).
  split; [done|]. split; [done|].
  exact (blocks_are_shared 2 _ _ _ Hr Hrun).
Defined.

(** ** The two instances *)

(** X14.  A grow swaps the instances.  In a reachable state, when the
    block of a pid [p] in [0, PID_LIMIT) is not yet in the current
    instance, [publish(p, v)] returns with the other instance current;
    the blocks pointer of the instance that was current has been freed,
    and its [len] field still holds the old length. *)
Theorem grow_swaps_instances st p v fuel :
  reachable st -> 0 <= p < PID_LIMIT ->
  len (cur_inst st) <= p / CHPL_PRIVATIZATION_BLOCK_SIZE ->
  exists st1,
    chpl_newPrivatizedClass (S (S fuel)) v p st = Ok (1%nat, st1) /\
    currentInstanceIdx st1 = 1 - currentInstanceIdx st /\
    load (chpl_priv_instances st1) (currentInstanceIdx st)
    = Ok (mk_instance None (len (cur_inst st))).
Proof.
  intros Hr Hp Hout. destruct (reachable_wf _ Hr) as (vec & Hwf).
  rewrite (wf_len _ _ Hwf) in *.
  pose proof (ok_len _ _ (proj1 Hwf)) as Hl.
  pose proof (pid_limit_div _ Hp) as Hdiv.
  assert (Hb : blockIdx_of p = p / CHPL_PRIVATIZATION_BLOCK_SIZE).
  { apply blockIdx_of_exact; lia. }
  pose proof (idx_of_bound p (proj1 Hp)) as Hi.
  unfold chpl_newPrivatizedClass. fold (blockIdx_of p). rewrite Hb.
  set (b := p / CHPL_PRIVATIZATION_BLOCK_SIZE) in *.
  destruct (enter_write st vec v p b Hwf) as (st2 & Hwf2 & Hs & Heq).
  { unfold INT_MIN, INT_MAX in *. lia. }
  { lia. }
  rewrite Heq. destruct Hwf2 as (Hd2 & Hi2 & Hw2).
  rewrite (write_section_grow _ _ _ vec) by (done || lia).
  rewrite wait_frozen_idle;
    [|apply Hi2|by destruct (ok_idx _ _ Hd2) as [-> | ->]].
  cbn [bind].
  assert (Hwfg : wf (grown st2 vec b)
                    (vec ++ seq (length (mem st2)) (Z.to_nat (b + 1) - length vec))).
  { split; [apply grown_data_ok; [done|lia]|]. split; [exact Hi2|done]. }
  destruct (publish_loop_store _ _ v p b Hwfg) as (st3 & _ & _ & _ & Heq3);
    [rewrite length_app, length_seq; lia|done|].
  exists st3. split; [apply Heq3|].
  pose proof (Heq3 fuel 1%nat) as Hrun.
  apply (publish_loop_store_frame _ _ _ _ _ _ _ _ _ Hwfg) in Hrun as [Hinst Hcur];
    [|rewrite length_app, length_seq; lia].
  rewrite Hinst, Hcur. destruct Hs as (_ & Hsi & Hsc & _).
  unfold grown. cbn [chpl_priv_instances currentInstanceIdx].
  rewrite Hsc, Hsi.
  pose proof (ok_two _ _ (proj1 Hwf)) as Htwo.
  destruct (ok_idx _ _ (proj1 Hwf)) as [E|E]; rewrite E; cbn [Z.eqb].
  - split; [done|]. unfold load. cbn [Z.leb Z.compare].
    rewrite list_lookup_insert_eq; [done|]. rewrite length_insert, Htwo. cbn. lia.
  - split; [done|]. unfold load. cbn [Z.leb Z.compare].
    rewrite list_lookup_insert_eq; [done|]. rewrite length_insert, Htwo. cbn. lia.
Qed.

Lemma grow_swaps_instances_witness :
  reachable chpl_privatization_init /\
  exists st1,
    chpl_newPrivatizedClass 2 7 5000 chpl_privatization_init = Ok (1%nat, st1) /\
    currentInstanceIdx st1 = 1 /\
    load (chpl_priv_instances st1) 0 = Ok (mk_instance None 1).
Proof.
  assert (Hr : reachable chpl_privatization_init) by (by exists 0%nat, []).
  split; [done|].
  apply (grow_swaps_instances chpl_privatization_init 5000 7 0 Hr).
  - by vm_compute.
  - by vm_compute.
Defined.

(** ** The state between two operations *)

Lemma run_one_node fuel ops : forall st st',
  run fuel ops st = Ok st' ->
  match reader_tls st with
  | None => tls_list st = []
  | Some a => length (tls_list st) = 1%nat
  end ->
  match reader_tls st' with
  | None => tls_list st' = []
  | Some a => length (tls_list st') = 1%nat
  end.
Proof.
  induction ops as [|o ops IH]; intros st st'; cbn [run]; intros H Hst.
  - by injection H as <-.
  - apply bind_Ok in H as (st1 & Hex & H). apply (IH _ _ H).
    apply exec_keeps_node in Hex as (a & Ha & _ & Hk). rewrite Ha.
    destruct (reader_tls st).
    + destruct Hk as [_ ->]. done.
    + rewrite Hk, Hst. done.
Qed.

(** X15.  What every operation leaves behind.  In any state a thread
    running alone reaches from [chpl_privatization_init], the index is 0
    or 1, the write lock is free, every node of the roster is idle
    (status 255, the [-1] of [releaseRead]), the roster holds the one
    node of the thread once it has run an operation, the current instance
    has between 1 and [INT_MAX] blocks and its blocks pointer is live. *)
Theorem between_operations st :
  reachable st ->
  (currentInstanceIdx st = 0 \/ currentInstanceIdx st = 1) /\
  writeLock st = false /\
  Forall (fun n => status n = 255) (tls_list st) /\
  match reader_tls st with
  | None => tls_list st = []
  | Some a => a = 0%nat /\ length (tls_list st) = 1%nat
  end /\
  1 <= len (cur_inst st) <= INT_MAX /\
  exists vec, blocks (cur_inst st) = Some vec /\
              Z.of_nat (length vec) = len (cur_inst st).
Proof.
  intros Hr. destruct (reachable_wf _ Hr) as (vec & Hd & (Hidle & Hkey) & Hw).
  destruct Hr as (fuel & ops & Hrun).
  pose proof (run_one_node _ _ _ _ Hrun eq_refl) as Hone.
  split; [apply Hd|]. split; [done|]. split; [done|]. split.
  - destruct (reader_tls st) as [a|] eqn:Ha; [|done].
    split; [|done]. specialize (Hkey a eq_refl). lia.
  - rewrite (ok_cur _ _ Hd). cbn [len blocks]. split; [apply Hd|].
    exists (Some <$> vec). by rewrite length_fmap.
Qed.

Lemma between_operations_witness :
  reachable sparse_state /\
  writeLock sparse_state = false /\
  Forall (fun n => status n = 255) (tls_list sparse_state).
Proof.
  assert (Hr : reachable sparse_state).
  { exists 2%nat, [Publish 7 5000; Clear 3]. vm_compute. reflexivity. }
  split; [done|].
  destruct (between_operations sparse_state Hr) as (_ & Hw & Hi & _).
  by split.
Defined.
